(** * featureLoader.py: the build-option exporter

    A shallow embedding of [resources/featureLoader.py] and of the parts of
    the Python runtime it calls ([print], [json.dumps] with its default
    arguments, attribute access, [==], [sys.exit]).

    Conventions of the model:
    - standard output is the text written so far, a [string] (everything
      the program prints is ASCII, because [json.dumps] escapes the rest);
    - a Python [str] is a list of code points ([list N]);
    - a Python value is a tree ([PyValue]); cyclic values are left out; an
      [int] prints at any size (the interpreter's limit on the number of
      digits is not modelled); a finite [float] is given by the shortest
      decimal digits that [float.__repr__] prints for it;
    - an element of [BUILD_OPTIONS] is an object with an identity and,
      when it has one, its [__dict__], whose entries are kept in insertion
      order; what [==] answers on two objects is a parameter of the run,
      and [object_eq] is the answer of plain classes (identity);
    - the configuration script is represented by what executing it yields:
      a module namespace or an exception; the script itself is taken to
      print nothing. *)

From Stdlib Require Import String Ascii List ZArith NArith Bool Lia.
From Stdlib Require Import DecimalString DecimalFacts DecimalN DecimalZ.
From stdpp Require Import base option list strings gmap.
Import ListNotations.

Set Warnings "-register-all".
#[local] Open Scope list_scope.
#[local] Open Scope string_scope.
#[local] Arguments String.append !s1 s2 : simpl nomatch.

(** ** Characters and text *)

Definition dquote : ascii := "034"%char.
Definition newline : ascii := "010"%char.
Definition chr (n : N) : string := String (ascii_of_N n) "".
Definition NL : string := String newline "".
Definition DQ : string := String dquote "".

(** [sep.join(parts)] *)
Fixpoint join (sep : string) (parts : list string) : string :=
  match parts with
  | [] => ""
  | [p] => p
  | p :: rest => p ++ sep ++ join sep rest
  end.

Fixpoint concat_str (parts : list string) : string :=
  match parts with
  | [] => ""
  | p :: rest => p ++ concat_str rest
  end.

(** ** Python values and exceptions *)

Definition PyStr := list N.

Definition py_str (s : string) : PyStr :=
  map N_of_ascii (list_ascii_of_string s).

(** A [float]: not a number, an infinity, a zero, or another finite
    value.  Such a value is given by what the shortest-digits conversion
    behind [float.__repr__] ([_Py_dg_dtoa], mode 0) finds for it: the
    sign, the decimal digits [d1 d2 ... dn], here the number they write,
    and the position of the decimal point; the value is
    [0.d1d2...dn * 10^decpt]. *)
Inductive Float : Type :=
| FNan
| FInf (negative : bool)
| FZero (negative : bool)
| FFinite (negative : bool) (digits : positive) (decpt : Z).

Inductive PyValue : Type :=
| PyNone
| PyBool (b : bool)
| PyInt (z : Z)
| PyFloat (x : Float)
| PyString (s : PyStr)
| PyList (items : list PyValue)            (* a list or a tuple *)
| PyDict (items : list (PyValue * PyValue)) (* in insertion order *)
| PyOther (type_name : string).  (* anything the default encoder refuses *)

Inductive PyExc : Type :=
| SystemExit (code : Z)
| AttributeError (name : string)
| TypeError (what : string)
| IndexError
| LoadError (what : string).

Inductive PyResult (A : Type) : Type :=
| Ok (a : A)
| Raise (e : PyExc).
Arguments Ok {A} a.
Arguments Raise {A} e.

#[global] Instance result_ret : MRet PyResult := @Ok.
#[global] Instance result_bind : MBind PyResult := fun A B k m =>
  match m with
  | Ok a => k a
  | Raise e => Raise e
  end.

(** ** json.dumps *)

Module Json.

(** [int.__repr__] *)
Definition int_repr (z : Z) : string :=
  NilZero.string_of_int (Z.to_int z).

(** [memset(p, '0', n)] *)
Definition zeros (n : Z) : string :=
  Nat.iter (Z.to_nat n) (String "0") "".

(** [strncpy(p, s, n)] and what is left of [s] after it *)
Fixpoint take_chars (n : nat) (s : string) : string :=
  match n, s with
  | S k, String c r => String c (take_chars k r)
  | _, _ => ""
  end.

Fixpoint drop_chars (n : nat) (s : string) : string :=
  match n, s with
  | S k, String c r => drop_chars k r
  | _, _ => s
  end.

(** [if (p[-1] == '.') p--] *)
Fixpoint strip_dot (s : string) : string :=
  match s with
  | "" => ""
  | String c "" => if (c =? ".")%char then "" else s
  | String c r => String c (strip_dot r)
  end.

(** [sprintf(p, "%+.02d", exp)] *)
Definition exp_repr (exp : Z) : string :=
  let d := NilEmpty.string_of_uint (N.to_uint (Z.abs_N exp)) in
  (if (exp <? 0)%Z then "-" else "+")
    ++ (if (String.length d <? 2)%nat then "0" ++ d else d).

(** [format_float_short] for the format code ['r'] with
    [Py_DTSF_ADD_DOT_0], as [float.__repr__] calls it: [digits] and
    [decpt] are what the digit conversion returned. *)
Definition format_float_short (negative : bool) (digits : string) (decpt : Z)
  : string :=
  let digits_len := Z.of_nat (String.length digits) in
  let use_exp := (decpt <=? -4)%Z || (16 <? decpt)%Z in
  let exp := (decpt - 1)%Z in
  let decpt := if use_exp then 1%Z else decpt in
  let vdigits_start := if (decpt <=? 0)%Z then (decpt - 1)%Z else 0%Z in
  let vdigits_end := digits_len in
  let vdigits_end :=
    if negb use_exp
    then if (decpt <? vdigits_end)%Z then vdigits_end else (decpt + 1)%Z
    else if (decpt <? vdigits_end)%Z then vdigits_end else decpt in
  let sign := if negative then "-" else "" in
  let left :=
    if (decpt <=? 0)%Z
    then zeros (decpt - vdigits_start) ++ "." ++ zeros (0 - decpt)
    else zeros (0 - vdigits_start) in
  let middle :=
    if (0 <? decpt)%Z && (decpt <=? digits_len)%Z
    then take_chars (Z.to_nat decpt) digits ++ "."
           ++ drop_chars (Z.to_nat decpt) digits
    else digits in
  let right :=
    if (digits_len <? decpt)%Z
    then zeros (decpt - digits_len) ++ "." ++ zeros (vdigits_end - decpt)
    else zeros (vdigits_end - digits_len) in
  let p := strip_dot (sign ++ left ++ middle ++ right) in
  if use_exp then p ++ "e" ++ exp_repr exp else p.

(** [float.__repr__]; the digit conversion gives the digit [0] and the
    position 1 for a zero. *)
Definition float_repr (x : Float) : string :=
  match x with
  | FNan => "nan"
  | FInf negative => if negative then "-inf" else "inf"
  | FZero negative => format_float_short negative "0" 1
  | FFinite negative digits decpt =>
      format_float_short negative
        (NilEmpty.string_of_uint (Pos.to_uint digits)) decpt
  end.

(** [floatstr] with [allow_nan=True] *)
Definition floatstr (x : Float) : string :=
  match x with
  | FNan => "NaN"
  | FInf false => "Infinity"
  | FInf true => "-Infinity"
  | _ => float_repr x
  end.

Definition hex_digit (d : N) : ascii :=
  if (d <? 10)%N then ascii_of_N (48 + d) else ascii_of_N (87 + d).

(** ['{0:04x}'.format(n)], for [n < 0x10000] *)
Definition hex4 (n : N) : string :=
  String (hex_digit (N.land (N.shiftr n 12) 15))
 (String (hex_digit (N.land (N.shiftr n 8) 15))
 (String (hex_digit (N.land (N.shiftr n 4) 15))
 (String (hex_digit (N.land n 15)) ""))).

Definition printable (c : N) : bool := (32 <=? c)%N && (c <=? 126)%N.

(** The replacement function of [py_encode_basestring_ascii]: [ESCAPE_DCT]
    first, then the [\uXXXX] forms; a character outside the pattern of
    [ESCAPE_ASCII] (a printable ASCII character other than the backslash
    and the double quote) is kept. *)
Definition escape_char (c : N) : string :=
  if (c =? 92)%N then "\\"
  else if (c =? 34)%N then "\" ++ DQ
  else if (c =? 8)%N then "\b"
  else if (c =? 12)%N then "\f"
  else if (c =? 10)%N then "\n"
  else if (c =? 13)%N then "\r"
  else if (c =? 9)%N then "\t"
  else if printable c then chr c
  else if (c <? 65536)%N then "\u" ++ hex4 c
  else
    let n := (c - 65536)%N in
    let s1 := N.lor 55296 (N.land (N.shiftr n 10) 1023) in
    let s2 := N.lor 56320 (N.land n 1023) in
    "\u" ++ hex4 s1 ++ "\u" ++ hex4 s2.

Definition encode_basestring_ascii (s : PyStr) : string :=
  DQ ++ concat_str (map escape_char s) ++ DQ.

(** The key conversion of [_iterencode_dict] ([skipkeys] is false). *)
Definition key_str (k : PyValue) : PyResult PyStr :=
  match k with
  | PyString s => Ok s
  | PyBool true => Ok (py_str "true")
  | PyBool false => Ok (py_str "false")
  | PyNone => Ok (py_str "null")
  | PyInt z => Ok (py_str (int_repr z))
  | PyFloat x => Ok (py_str (floatstr x))
  | _ => Raise (TypeError "keys must be str, int, float, bool or None")
  end.

(** [JSONEncoder().encode(o)] with the default separators [", "] and
    [": "], [ensure_ascii=True] and no [default] hook. *)
Fixpoint encode (o : PyValue) : PyResult string :=
  match o with
  | PyString s => Ok (encode_basestring_ascii s)
  | PyNone => Ok "null"
  | PyBool true => Ok "true"
  | PyBool false => Ok "false"
  | PyInt z => Ok (int_repr z)
  | PyFloat x => Ok (floatstr x)
  | PyList items =>
      chunks ← mapM encode items;
      Ok ("[" ++ join ", " chunks ++ "]")
  | PyDict items =>
      chunks ← mapM (fun kv =>
                  k ← key_str (fst kv);
                  v ← encode (snd kv);
                  Ok (encode_basestring_ascii k ++ ": " ++ v)) items;
      Ok ("{" ++ join ", " chunks ++ "}")
  | PyOther t => Raise (TypeError "Object is not JSON serializable")
  end.

End Json.


(** ** Objects, modules and the process *)

Definition Fields := list (PyStr * PyValue).

(** An element of [BUILD_OPTIONS]: its identity and its [__dict__], if it
    has one. *)
Record PyObject : Type := {
  obj_id : nat;
  obj_dict : option Fields
}.

(** What a module-level name can be bound to: a list or tuple of objects,
    or something that cannot be iterated. *)
Inductive ModuleValue : Type :=
| Sequence (items : list PyObject)
| NotIterable (type_name : string).

Abbreviation PyModule := (gmap string ModuleValue).

(** [object.__eq__]: identity. *)
Definition object_eq (a b : PyObject) : bool := (obj_id a =? obj_id b)%nat.

(** A computation that writes to standard output and may raise. *)
Definition Script (A : Type) : Type := string -> string * PyResult A.

#[global] Instance script_ret : MRet Script := fun A a out => (out, Ok a).
#[global] Instance script_bind : MBind Script := fun A B k m out =>
  match m out with
  | (out', Ok a) => k a out'
  | (out', Raise e) => (out', Raise e)
  end.

Definition lift {A} (r : PyResult A) : Script A := fun out => (out, r).

(** [print(s, end=end_)] *)
Definition print (s end_ : string) : Script unit :=
  fun out => (out ++ s ++ end_, Ok tt).

(** [sys.exit(code)] *)
Definition sys_exit {A} (code : Z) : Script A := lift (Raise (SystemExit code)).

Definition getattr (module : PyModule) (name : string) : PyResult ModuleValue :=
  match module !! name with
  | Some v => Ok v
  | None => Raise (AttributeError name)
  end.

Definition iter (v : ModuleValue) : PyResult (list PyObject) :=
  match v with
  | Sequence items => Ok items
  | NotIterable t => Raise (TypeError "object is not iterable")
  end.

(** [v[-1]] *)
Definition subscript_last (v : ModuleValue) : PyResult PyObject :=
  match v with
  | Sequence items =>
      match last items with
      | Some o => Ok o
      | None => Raise IndexError
      end
  | NotIterable t => Raise (TypeError "object is not subscriptable")
  end.

(** [o.__dict__] *)
Definition get_dict (o : PyObject) : PyResult Fields :=
  match obj_dict o with
  | Some d => Ok d
  | None => Raise (AttributeError "__dict__")
  end.

(** [json.dumps(d)] for the [__dict__] of an object *)
Definition json_dumps (d : Fields) : PyResult string :=
  Json.encode (PyDict (map (fun kv => (PyString (fst kv), snd kv)) d)).

Inductive Termination : Type :=
| Exited (code : Z)
| Uncaught (e : PyExc).

(** The exit status of the interpreter: an uncaught exception gives 1. *)
Definition exit_code (t : Termination) : Z :=
  match t with
  | Exited c => c
  | Uncaught _ => 1
  end.

Record Process : Type := {
  stdout : string;
  termination : Termination
}.

Section Exporter.

(** The three [importlib] lines: what executing the script at a path
    yields. *)
Variable exec_module : string -> PyResult PyModule.
(** The [==] of the objects of the script. *)
Variable py_eq : PyObject -> PyObject -> bool.

(** The body of the [for] loop, over the elements still to visit. *)
Fixpoint for_options (module : PyModule) (todo : list PyObject) : Script unit :=
  match todo with
  | [] => mret tt
  | opt :: rest =>
      build_options ← lift (getattr module "BUILD_OPTIONS");
      final ← lift (subscript_last build_options);
      (if py_eq opt final then
         d ← lift (get_dict opt);
         s ← lift (json_dumps d);
         print s ""
       else
         d ← lift (get_dict opt);
         s ← lift (json_dumps d);
         print s ("," ++ NL));;
      for_options module rest
  end.

Definition main (argv : list string) : Script unit :=
  if negb (length argv =? 2)%nat then sys_exit 1
  else
    let script_path := nth 1 argv "" in
    module ← lift (exec_module script_path);
    let json_str := "" in
    print "[" "";;
    build_options ← lift (getattr module "BUILD_OPTIONS");
    options ← lift (iter build_options);
    for_options module options;;
    print "]" NL.

Definition run (argv : list string) : Process :=
  let (out, r) := main argv "" in
  {| stdout := out;
     termination := match r with
                    | Ok _ => Exited 0
                    | Raise (SystemExit c) => Exited c
                    | Raise e => Uncaught e
                    end |}.

End Exporter.

(** ** JSON texts (RFC 8259)

    What a consumer of the output reads: the value a JSON text denotes, if
    the text is one.  Strings are kept as their sequence of 16-bit code
    units and numbers as their sign, integer part, fraction and exponent. *)

Module Rfc8259.

Inductive JSON : Type :=
| JNull
| JBool (b : bool)
| JNumber (minus : bool) (int : N) (frac : option Decimal.uint)
          (exp : option Decimal.int)
| JString (units : list N)
| JArray (elements : list JSON)
| JObject (members : list (list N * JSON)).

Definition is_ws (c : ascii) : bool :=
  match c with
  | " "%char | "009"%char | "010"%char | "013"%char => true
  | _ => false
  end.

Fixpoint skip_ws (s : string) : string :=
  match s with
  | String c r => if is_ws c then skip_ws r else s
  | "" => ""
  end.

Definition digit_cons (c : ascii) : option (Decimal.uint -> Decimal.uint) :=
  match c with
  | "0"%char => Some Decimal.D0
  | "1"%char => Some Decimal.D1
  | "2"%char => Some Decimal.D2
  | "3"%char => Some Decimal.D3
  | "4"%char => Some Decimal.D4
  | "5"%char => Some Decimal.D5
  | "6"%char => Some Decimal.D6
  | "7"%char => Some Decimal.D7
  | "8"%char => Some Decimal.D8
  | "9"%char => Some Decimal.D9
  | _ => None
  end.

(** The longest prefix of digits, and what follows it. *)
Fixpoint read_digits (s : string) : Decimal.uint * string :=
  match s with
  | String c r =>
      match digit_cons c with
      | Some k => let (d, r') := read_digits r in (k d, r')
      | None => (Decimal.Nil, s)
      end
  | "" => (Decimal.Nil, "")
  end.

Definition read_frac (s : string) : option (option Decimal.uint * string) :=
  match s with
  | String "."%char r =>
      match read_digits r with
      | (Decimal.Nil, _) => None
      | (d, r') => Some (Some d, r')
      end
  | _ => Some (None, s)
  end.

Definition read_exp (s : string) : option (option Decimal.int * string) :=
  let digits (sign : Decimal.uint -> Decimal.int) (r : string) :=
    match read_digits r with
    | (Decimal.Nil, _) => None
    | (d, r') => Some (Some (sign d), r')
    end in
  match s with
  | String c r =>
      if (c =? "e")%char || (c =? "E")%char then
        match r with
        | String "-"%char r1 => digits Decimal.Neg r1
        | String "+"%char r1 => digits Decimal.Pos r1
        | _ => digits Decimal.Pos r
        end
      else Some (None, s)
  | "" => Some (None, s)
  end.

(** int [ frac ] [ exp ], with no leading zero *)
Definition parse_unsigned (minus : bool) (s : string) : option (JSON * string) :=
  let (d, s2) := read_digits s in
  match d with
  | Decimal.Nil => None
  | Decimal.D0 (Decimal.D0 _ | Decimal.D1 _ | Decimal.D2 _ | Decimal.D3 _
               | Decimal.D4 _ | Decimal.D5 _ | Decimal.D6 _ | Decimal.D7 _
               | Decimal.D8 _ | Decimal.D9 _) => None
  | _ =>
      '(frac, s3) ← read_frac s2;
      '(exp, s4) ← read_exp s3;
      Some (JNumber minus (N.of_uint d) frac exp, s4)
  end.

(** number = [ minus ] int [ frac ] [ exp ] *)
Definition parse_number (s : string) : option (JSON * string) :=
  match s with
  | String "-"%char r => parse_unsigned true r
  | _ => parse_unsigned false s
  end.

Definition hex_val (c : ascii) : option N :=
  let n := N_of_ascii c in
  if (48 <=? n)%N && (n <=? 57)%N then Some (n - 48)%N
  else if (97 <=? n)%N && (n <=? 102)%N then Some (n - 87)%N
  else if (65 <=? n)%N && (n <=? 70)%N then Some (n - 55)%N
  else None.

Definition hex4_val (a b c d : ascii) : option N :=
  x3 ← hex_val a; x2 ← hex_val b; x1 ← hex_val c; x0 ← hex_val d;
  Some (((x3 * 16 + x2) * 16 + x1) * 16 + x0)%N.

Definition cons_units (us : list N) (r : option (list N * string))
  : option (list N * string) :=
  '(vs, rest) ← r; Some ((us ++ vs)%list, rest).

Definition cons_unit (u : N) := cons_units [u].

(** The characters of a string after its opening quote, up to and
    including the closing quote. *)
Fixpoint parse_chars (s : string) : option (list N * string) :=
  match s with
  | "" => None
  | String c r =>
      let n := N_of_ascii c in
      if (n =? 34)%N then Some ([], r)
      else if (n =? 92)%N then
        match r with
        | String e r1 =>
            let m := N_of_ascii e in
            if (m =? 34)%N then cons_unit 34 (parse_chars r1)
            else if (m =? 92)%N then cons_unit 92 (parse_chars r1)
            else if (m =? 47)%N then cons_unit 47 (parse_chars r1)
            else if (m =? 98)%N then cons_unit 8 (parse_chars r1)
            else if (m =? 102)%N then cons_unit 12 (parse_chars r1)
            else if (m =? 110)%N then cons_unit 10 (parse_chars r1)
            else if (m =? 114)%N then cons_unit 13 (parse_chars r1)
            else if (m =? 116)%N then cons_unit 9 (parse_chars r1)
            else if (m =? 117)%N then
              match r1 with
              | String h3 (String h2 (String h1 (String h0 r2))) =>
                  u ← hex4_val h3 h2 h1 h0;
                  cons_unit u (parse_chars r2)
              | _ => None
              end
            else None
        | "" => None
        end
      else if (n <? 32)%N then None
      else cons_unit n (parse_chars r)
  end.

(** What is left of [s] after the prefix [p], if [s] starts with it. *)
Fixpoint strip_prefix (p s : string) : option string :=
  match p with
  | "" => Some s
  | String a p' =>
      match s with
      | String b s' => if (a =? b)%char then strip_prefix p' s' else None
      | "" => None
      end
  end.

Definition keyword (word : string) (v : JSON) (s : string)
  : option (JSON * string) :=
  r ← strip_prefix word s; Some (v, r).

Definition starts_number (c : ascii) : bool :=
  (c =? "-")%char || match digit_cons c with Some _ => true | None => false end.

Fixpoint parse_value (fuel : nat) (s : string) : option (JSON * string) :=
  match fuel with
  | O => None
  | S fuel' =>
      match s with
      | "" => None
      | String c r =>
          if starts_number c then parse_number s
          else if (c =? dquote)%char then
            '(us, r1) ← parse_chars r; Some (JString us, r1)
          else if (c =? "n")%char then keyword "ull" JNull r
          else if (c =? "t")%char then keyword "rue" (JBool true) r
          else if (c =? "f")%char then keyword "alse" (JBool false) r
          else if (c =? "[")%char then
            match skip_ws r with
            | String c1 r1 =>
                if (c1 =? "]")%char then Some (JArray [], r1)
                else '(vs, r2) ← parse_elements fuel' (String c1 r1);
                     Some (JArray vs, r2)
            | "" => None
            end
          else if (c =? "{")%char then
            match skip_ws r with
            | String c1 r1 =>
                if (c1 =? "}")%char then Some (JObject [], r1)
                else '(ms, r2) ← parse_members fuel' (String c1 r1);
                     Some (JObject ms, r2)
            | "" => None
            end
          else None
      end
  end
with parse_elements (fuel : nat) (s : string) : option (list JSON * string) :=
  match fuel with
  | O => None
  | S fuel' =>
      '(v, r) ← parse_value fuel' s;
      match skip_ws r with
      | String c r1 =>
          if (c =? ",")%char then
            '(vs, r2) ← parse_elements fuel' (skip_ws r1); Some (v :: vs, r2)
          else if (c =? "]")%char then Some ([v], r1)
          else None
      | "" => None
      end
  end
with parse_members (fuel : nat) (s : string)
  : option (list (list N * JSON) * string) :=
  match fuel with
  | O => None
  | S fuel' =>
      match s with
      | String c r =>
          if (c =? dquote)%char then
            '(k, r1) ← parse_chars r;
            match skip_ws r1 with
            | String c2 r2 =>
                if (c2 =? ":")%char then
                  '(v, r3) ← parse_value fuel' (skip_ws r2);
                  match skip_ws r3 with
                  | String c4 r4 =>
                      if (c4 =? ",")%char then
                        '(ms, r5) ← parse_members fuel' (skip_ws r4);
                        Some ((k, v) :: ms, r5)
                      else if (c4 =? "}")%char then Some ([(k, v)], r4)
                      else None
                  | "" => None
                  end
                else None
            | "" => None
            end
          else None
      | "" => None
      end
  end.

(** The value of a whole text: one value between optional whitespace. *)
Definition loads (s : string) : option JSON :=
  '(v, r) ← parse_value (S (String.length s)) (skip_ws s);
  match skip_ws r with
  | "" => Some v
  | _ => None
  end.

End Rfc8259.

(** ** The JSON value of a Python value

    What the default encoder is documented to produce: [None] is [null],
    a [bool] is [true] or [false], an [int] and a finite [float] are
    numbers, a [str] is a string (here the UTF-16 code units of its code
    points), a list is an array and a dict is an object whose keys are
    strings: a key that is a number, a [bool] or [None] becomes the string
    that writes it.  A [float] that is not finite has no JSON value. *)

Definition utf16_units (c : N) : list N :=
  if (c <? 65536)%N then [c]
  else [N.lor 55296 (N.land (N.shiftr (c - 65536) 10) 1023);
        N.lor 56320 (N.land (c - 65536) 1023)].

Definition utf16 (s : PyStr) : list N := flat_map utf16_units s.

(** Digits: [n] zeros, the first [n] digits, the digits after them, and
    one run of digits after another. *)
Definition uzeros (n : nat) : Decimal.uint := Nat.iter n Decimal.D0 Decimal.Nil.

Definition uncons (d : Decimal.uint)
  : option ((Decimal.uint -> Decimal.uint) * Decimal.uint) :=
  match d with
  | Decimal.Nil => None
  | Decimal.D0 r => Some (Decimal.D0, r)
  | Decimal.D1 r => Some (Decimal.D1, r)
  | Decimal.D2 r => Some (Decimal.D2, r)
  | Decimal.D3 r => Some (Decimal.D3, r)
  | Decimal.D4 r => Some (Decimal.D4, r)
  | Decimal.D5 r => Some (Decimal.D5, r)
  | Decimal.D6 r => Some (Decimal.D6, r)
  | Decimal.D7 r => Some (Decimal.D7, r)
  | Decimal.D8 r => Some (Decimal.D8, r)
  | Decimal.D9 r => Some (Decimal.D9, r)
  end.

Fixpoint utake (n : nat) (d : Decimal.uint) : Decimal.uint :=
  match n with
  | O => Decimal.Nil
  | S k =>
      match uncons d with
      | Some (digit, r) => digit (utake k r)
      | None => Decimal.Nil
      end
  end.

Fixpoint udrop (n : nat) (d : Decimal.uint) : Decimal.uint :=
  match n with
  | O => d
  | S k =>
      match uncons d with
      | Some (_, r) => udrop k r
      | None => Decimal.Nil
      end
  end.

Fixpoint uapp (a b : Decimal.uint) : Decimal.uint :=
  match a with
  | Decimal.Nil => b
  | Decimal.D0 r => Decimal.D0 (uapp r b)
  | Decimal.D1 r => Decimal.D1 (uapp r b)
  | Decimal.D2 r => Decimal.D2 (uapp r b)
  | Decimal.D3 r => Decimal.D3 (uapp r b)
  | Decimal.D4 r => Decimal.D4 (uapp r b)
  | Decimal.D5 r => Decimal.D5 (uapp r b)
  | Decimal.D6 r => Decimal.D6 (uapp r b)
  | Decimal.D7 r => Decimal.D7 (uapp r b)
  | Decimal.D8 r => Decimal.D8 (uapp r b)
  | Decimal.D9 r => Decimal.D9 (uapp r b)
  end.

(** The exponent of a number in scientific notation: signed, with two
    digits at least. *)
Definition exp_int (e : Z) : Decimal.int :=
  let d := N.to_uint (Z.abs_N e) in
  let d := if (Decimal.nb_digits d <? 2)%nat then Decimal.D0 d else d in
  if (e <? 0)%Z then Decimal.Neg d else Decimal.Pos d.

(** The number that the digits [d1 ... dn] with the decimal point at
    [decpt] are written as: in scientific notation, [d1.d2...dn] with the
    exponent [decpt - 1], when the point is more than three places to the
    left of the digits or more than sixteen places into them, and in
    positional notation otherwise, always with a fraction. *)
Definition digits_number (negative : bool) (ds : Decimal.uint) (decpt : Z)
  : Rfc8259.JSON :=
  let n := Z.of_nat (Decimal.nb_digits ds) in
  if (decpt <? -3)%Z || (16 <? decpt)%Z then
    Rfc8259.JNumber negative (N.of_uint (utake 1 ds))
      (match udrop 1 ds with
       | Decimal.Nil => None
       | r => Some r
       end)
      (Some (exp_int (decpt - 1)))
  else if (decpt <? 1)%Z then
    Rfc8259.JNumber negative 0
      (Some (uapp (uzeros (Z.to_nat (- decpt))) ds)) None
  else if (decpt <? n)%Z then
    Rfc8259.JNumber negative (N.of_uint (utake (Z.to_nat decpt) ds))
      (Some (udrop (Z.to_nat decpt) ds)) None
  else
    Rfc8259.JNumber negative
      (N.of_uint (uapp ds (uzeros (Z.to_nat (decpt - n)))))
      (Some (Decimal.D0 Decimal.Nil)) None.

(** The number of a finite float; a zero is [0.0]. *)
Definition float_number (x : Float) : option Rfc8259.JSON :=
  match x with
  | FZero negative =>
      Some (Rfc8259.JNumber negative 0 (Some (Decimal.D0 Decimal.Nil)) None)
  | FFinite negative digits decpt =>
      Some (digits_number negative (Pos.to_uint digits) decpt)
  | _ => None
  end.

(** The text of a JSON number: sign, integer part, fraction, exponent. *)
Definition number_text (minus : bool) (int : N) (frac : option Decimal.uint)
    (exp : option Decimal.int) : string :=
  (if minus then "-" else "")
    ++ NilEmpty.string_of_uint (N.to_uint int)
    ++ match frac with
       | Some d => "." ++ NilEmpty.string_of_uint d
       | None => ""
       end
    ++ match exp with
       | Some (Decimal.Pos d) => "e+" ++ NilEmpty.string_of_uint d
       | Some (Decimal.Neg d) => "e-" ++ NilEmpty.string_of_uint d
       | None => ""
       end.

Definition json_text (j : Rfc8259.JSON) : string :=
  match j with
  | Rfc8259.JNumber minus int frac exp => number_text minus int frac exp
  | _ => ""
  end.

(** The number read when the digits [d] follow the number [acc]. *)
Fixpoint digits_value (acc : N) (d : Decimal.uint) : N :=
  match d with
  | Decimal.Nil => acc
  | Decimal.D0 r => digits_value (10 * acc) r
  | Decimal.D1 r => digits_value (10 * acc + 1) r
  | Decimal.D2 r => digits_value (10 * acc + 2) r
  | Decimal.D3 r => digits_value (10 * acc + 3) r
  | Decimal.D4 r => digits_value (10 * acc + 4) r
  | Decimal.D5 r => digits_value (10 * acc + 5) r
  | Decimal.D6 r => digits_value (10 * acc + 6) r
  | Decimal.D7 r => digits_value (10 * acc + 7) r
  | Decimal.D8 r => digits_value (10 * acc + 8) r
  | Decimal.D9 r => digits_value (10 * acc + 9) r
  end.

(** A decimal: a sign, a coefficient [c] and an exponent [e], for the
    number [c * 10^e]. *)
Record Dec : Type := {
  dec_minus : bool;
  dec_coefficient : N;
  dec_exponent : Z
}.

(** The value of a JSON number: the digits of the integer part and of
    the fraction, scaled by the exponent. *)
Definition number_value (j : Rfc8259.JSON) : option Dec :=
  match j with
  | Rfc8259.JNumber minus int frac exp =>
      let f := match frac with Some d => d | None => Decimal.Nil end in
      let e := match exp with Some x => Z.of_int x | None => 0%Z end in
      Some {| dec_minus := minus;
              dec_coefficient := digits_value int f;
              dec_exponent := e - Z.of_nat (Decimal.nb_digits f) |}
  | _ => None
  end.

(** The value of a finite float: the digits [d1 ... dn] with the point
    at [decpt] write [d1...dn * 10^(decpt - n)]. *)
Definition float_value (x : Float) : option Dec :=
  match x with
  | FZero negative =>
      Some {| dec_minus := negative; dec_coefficient := 0;
              dec_exponent := 0 |}
  | FFinite negative digits decpt =>
      Some {| dec_minus := negative;
              dec_coefficient := Npos digits;
              dec_exponent :=
                decpt - Z.of_nat (Decimal.nb_digits (Pos.to_uint digits)) |}
  | _ => None
  end.

(** The value of a Python number. *)
Definition py_number_value (v : PyValue) : option Dec :=
  match v with
  | PyInt z =>
      Some {| dec_minus := (z <? 0)%Z; dec_coefficient := Z.abs_N z;
              dec_exponent := 0 |}
  | PyFloat x => float_value x
  | _ => None
  end.

(** Two decimals with the same sign that denote the same number. *)
Definition same_decimal (a b : Dec) : Prop :=
  let e := Z.min (dec_exponent a) (dec_exponent b) in
  dec_minus a = dec_minus b /\
  (Z.of_N (dec_coefficient a) * 10 ^ (dec_exponent a - e)
   = Z.of_N (dec_coefficient b) * 10 ^ (dec_exponent b - e))%Z.

(** The key of an object member: a [str] is itself; a number is the text
    that writes it; [True], [False] and [None] are their JSON words; a
    float that is not finite is its JavaScript name. *)
Definition json_key (k : PyValue) : option (list N) :=
  match k with
  | PyString s => Some (utf16 s)
  | PyBool b => Some (py_str (if b then "true" else "false"))
  | PyNone => Some (py_str "null")
  | PyInt z =>
      Some (py_str (number_text (z <? 0)%Z (Z.abs_N z) None None))
  | PyFloat FNan => Some (py_str "NaN")
  | PyFloat (FInf negative) =>
      Some (py_str (if negative then "-Infinity" else "Infinity"))
  | PyFloat x => j ← float_number x; Some (py_str (json_text j))
  | _ => None
  end.

Fixpoint json_of (v : PyValue) : option Rfc8259.JSON :=
  match v with
  | PyNone => Some Rfc8259.JNull
  | PyBool b => Some (Rfc8259.JBool b)
  | PyInt z => Some (Rfc8259.JNumber (z <? 0)%Z (Z.abs_N z) None None)
  | PyFloat x => float_number x
  | PyString s => Some (Rfc8259.JString (utf16 s))
  | PyList items => vs ← mapM json_of items; Some (Rfc8259.JArray vs)
  | PyDict items =>
      ms ← mapM (fun kv =>
              k ← json_key (fst kv);
              v ← json_of (snd kv);
              Some (k, v)) items;
      Some (Rfc8259.JObject ms)
  | PyOther _ => None
  end.

(** No float in the value is a NaN or an infinity; the keys of a dict
    do not count, they are written as strings. *)
Fixpoint finite_value (v : PyValue) : bool :=
  match v with
  | PyFloat (FNan | FInf _) => false
  | PyList items => forallb finite_value items
  | PyDict items => forallb (fun kv => finite_value (snd kv)) items
  | _ => true
  end.

(** The JSON object of a [__dict__]. *)
Definition json_of_fields (d : Fields) : option Rfc8259.JSON :=
  json_of (PyDict (map (fun kv => (PyString (fst kv), snd kv)) d)).

(** ** Text: lengths, counting, delimiters *)

Fixpoint count_char (c : ascii) (s : string) : nat :=
  match s with
  | "" => 0
  | String a r => (if (a =? c)%char then 1 else 0) + count_char c r
  end.

(** Every character of the text satisfies [p]. *)
Fixpoint all_chars (p : ascii -> bool) (s : string) : bool :=
  match s with
  | "" => true
  | String a r => p a && all_chars p r
  end.

Definition printable_ascii (a : ascii) : bool :=
  (32 <=? N_of_ascii a)%N && (N_of_ascii a <=? 126)%N.

(** What can follow a value inside a JSON text: the end of the text,
    whitespace, a comma, or a closing bracket or brace. *)
Definition at_delimiter (s : string) : bool :=
  match s with
  | "" => true
  | String c _ =>
      Rfc8259.is_ws c || (c =? ",")%char || (c =? "]")%char || (c =? "}")%char
  end.

(** ** Vocabulary of the statements *)

(** No digit follows: a run of digits ends here. *)
Definition no_digit_ahead (rest : string) : Prop :=
  match rest with
  | String c _ => Rfc8259.digit_cons c = None
  | "" => True
  end.

(** The text [t] reads as [j] whatever follows it, as long as a delimiter
    follows and the fuel exceeds the length of the text. *)
Definition reads_as (t : string) (j : Rfc8259.JSON) : Prop :=
  forall fuel rest,
    String.length t < fuel -> at_delimiter rest = true ->
    Rfc8259.parse_value fuel (t ++ rest) = Some (j, rest).

(** A [key: value] chunk of an object and the member it reads as. *)
Definition member_reads (chunk : string) (m : list N * Rfc8259.JSON) : Prop :=
  exists k t,
    chunk = Json.encode_basestring_ascii k ++ ": " ++ t /\
    fst m = utf16 k /\ reads_as t (snd m).

(** One [key: value] chunk of [_iterencode_dict]. *)
Definition encode_member (kv : PyValue * PyValue) : PyResult string :=
  k ← Json.key_str (fst kv);
  v ← Json.encode (snd kv);
  Ok (Json.encode_basestring_ascii k ++ ": " ++ v).

(** What the loop writes after the text of [o], when [final] is the last
    element of [BUILD_OPTIONS]. *)
Definition ending (py_eq : PyObject -> PyObject -> bool)
    (final o : PyObject) : string :=
  if py_eq o final then "" else "," ++ NL.

(** What one iteration of the loop writes for [o]. *)
Definition piece (py_eq : PyObject -> PyObject -> bool)
    (final o : PyObject) : PyResult string :=
  d ← get_dict o;
  s ← json_dumps d;
  Ok (s ++ ending py_eq final o).

(** All the pieces of a run over [opts]. *)
Definition pieces (py_eq : PyObject -> PyObject -> bool)
    (opts : list PyObject) : PyResult (list string) :=
  match last opts with
  | Some final => mapM (piece py_eq final) opts
  | None => Ok []
  end.

(** The record [o] can be serialized, and [t] is the text
    [json.dumps(o.__dict__)]. *)
Definition serializes (o : PyObject) (t : string) : Prop :=
  exists d, obj_dict o = Some d /\ json_dumps d = Ok t.

(** No field value of the record holds a NaN or an infinity. *)
Definition finite_fields (d : Fields) : bool :=
  forallb (fun kv => finite_value (snd kv)) d.

Definition finite_record (o : PyObject) : bool :=
  match obj_dict o with
  | Some d => finite_fields d
  | None => true
  end.

(** The JSON object of a record: that of its [__dict__]. *)
Definition record_json (o : PyObject) : option Rfc8259.JSON :=
  match obj_dict o with
  | Some d => json_of_fields d
  | None => None
  end.

(** The run fails before anything but the opening bracket is written:
    [BUILD_OPTIONS] is missing or not iterable, or its first element
    cannot be serialized. *)
Definition fails_at_start (module : PyModule) : Prop :=
  match module !! "BUILD_OPTIONS" with
  | None => True
  | Some (NotIterable _) => True
  | Some (Sequence []) => False
  | Some (Sequence (o :: _)) => forall t, ~ serializes o t
  end.


(** The piece [p] written for the record [o] is a text, followed by the
    separator or by nothing, that reads as a JSON object whose members are,
    in order, the fields of the record: each key is the field name and each
    value the JSON value of the field value. *)
Definition record_written (o : PyObject) (p : string) : Prop :=
  exists d t e ms,
    obj_dict o = Some d /\ p = t ++ e /\ (e = "" \/ e = "," ++ NL) /\
    Rfc8259.loads t = Some (Rfc8259.JObject ms) /\
    Forall2 (fun kv m => fst m = utf16 (fst kv) /\
                         json_of (snd kv) = Some (snd m)) d ms.


(** How many characters of [s] were read when [r] is left. *)
Definition consumed (s r : string) : nat := String.length s - String.length r.

(** Fuel is no obstacle: a parse that succeeds with fuel [f] consumes
    something and succeeds with any fuel above what it consumes. *)
Definition adequate_value (f : nat) : Prop :=
  forall s v r, Rfc8259.parse_value f s = Some (v, r) ->
    String.length r < String.length s /\
    forall f', consumed s r < f' -> Rfc8259.parse_value f' s = Some (v, r).

Definition adequate_elements (f : nat) : Prop :=
  forall s vs r, Rfc8259.parse_elements f s = Some (vs, r) ->
    String.length r < String.length s /\
    forall f', consumed s r < f' -> Rfc8259.parse_elements f' s = Some (vs, r).

Definition adequate_members (f : nat) : Prop :=
  forall s ms r, Rfc8259.parse_members f s = Some (ms, r) ->
    String.length r < String.length s /\
    forall f', consumed s r < f' -> Rfc8259.parse_members f' s = Some (ms, r).

(** The loop seen from its iterations: the pieces are appended to the
    output up to the first iteration that raises. *)
Fixpoint emit (ps : list (PyResult string)) (out : string)
  : string * PyResult unit :=
  match ps with
  | [] => (out, Ok tt)
  | Ok p :: rest => emit rest (out ++ p)
  | Raise e :: _ => (out, Raise e)
  end.

(** What each iteration of a run over [opts] yields. *)
Definition outcomes (py_eq : PyObject -> PyObject -> bool)
    (opts : list PyObject) : list (PyResult string) :=
  match last opts with
  | Some final => map (piece py_eq final) opts
  | None => []
  end.

(** The characters the exporter can write: printable ASCII and the
    newline. *)
Definition writable (a : ascii) : bool :=
  printable_ascii a || (a =? newline)%char.

(** The last character of a text that is not whitespace. *)
Fixpoint last_visible (s : string) : option ascii :=
  match s with
  | "" => None
  | String c r =>
      match last_visible r with
      | Some x => Some x
      | None => if Rfc8259.is_ws c then None else Some c
      end
  end.

(** [r] is what is left of [s] after a prefix of it. *)
Definition suffix_of (r s : string) : Prop := exists pre, s = pre ++ r.

(** What the reader leaves is a suffix of what it was given, and a value
    that opens with a bracket ends at the closing bracket. *)
Definition closes_value (f : nat) : Prop :=
  forall s v r, Rfc8259.parse_value f s = Some (v, r) ->
    suffix_of r s /\
    (forall x, s = String "[" x -> suffix_of (String "]" r) s).

Definition closes_elements (f : nat) : Prop :=
  forall s vs r, Rfc8259.parse_elements f s = Some (vs, r) ->
    suffix_of (String "]" r) s.

Definition closes_members (f : nat) : Prop :=
  forall s ms r, Rfc8259.parse_members f s = Some (ms, r) ->
    suffix_of r s.

(** ** Example scripts *)

Definition quoted (s : string) : string := DQ ++ s ++ DQ.

Definition fields_x : Fields :=
  [(py_str "name", PyString (py_str "ENABLE_X")); (py_str "default", PyBool true)].
Definition fields_y : Fields :=
  [(py_str "name", PyString (py_str "ENABLE_Y")); (py_str "default", PyBool false)].

Definition text_x : string :=
  "{" ++ quoted "name" ++ ": " ++ quoted "ENABLE_X" ++ ", "
      ++ quoted "default" ++ ": true}".
Definition text_y : string :=
  "{" ++ quoted "name" ++ ": " ++ quoted "ENABLE_Y" ++ ", "
      ++ quoted "default" ++ ": false}".

Definition json_x : Rfc8259.JSON :=
  Rfc8259.JObject [(py_str "name", Rfc8259.JString (py_str "ENABLE_X"));
                   (py_str "default", Rfc8259.JBool true)].
Definition json_y : Rfc8259.JSON :=
  Rfc8259.JObject [(py_str "name", Rfc8259.JString (py_str "ENABLE_Y"));
                   (py_str "default", Rfc8259.JBool false)].

Definition enable_x : PyObject := {| obj_id := 1; obj_dict := Some fields_x |}.
Definition enable_y : PyObject := {| obj_id := 2; obj_dict := Some fields_y |}.
(** An object without [__dict__] (an [int], say). *)
Definition plain_int : PyObject := {| obj_id := 3; obj_dict := None |}.

Definition argv_ok : list string := ["featureLoader.py"; "build_options.py"].

(** A loader that finds the same module at every path. *)
Definition loader (m : PyModule) : string -> PyResult PyModule := fun _ => Ok m.

Definition script_two : PyModule :=
  {[ "BUILD_OPTIONS" := Sequence [enable_x; enable_y] ]}.
(** [x = Opt(...); BUILD_OPTIONS = [x, Opt(...), x]] *)
Definition script_aliased : PyModule :=
  {[ "BUILD_OPTIONS" := Sequence [enable_x; enable_y; enable_x] ]}.
Definition script_empty : PyModule := {[ "BUILD_OPTIONS" := Sequence [] ]}.
Definition script_no_symbol : PyModule := {[ "VERSION" := NotIterable "str" ]}.
Definition script_bad_first : PyModule :=
  {[ "BUILD_OPTIONS" := Sequence [plain_int; enable_x] ]}.
Definition script_bad_middle : PyModule :=
  {[ "BUILD_OPTIONS" := Sequence [enable_x; plain_int; enable_y] ]}.
(** A record with a float field, [1.5], and one whose float is
    [float('nan')]. *)
Definition fields_rate : Fields :=
  [(py_str "name", PyString (py_str "RATE"));
   (py_str "default", PyFloat (FFinite false 15 1))].
Definition fields_nan : Fields :=
  [(py_str "name", PyString (py_str "GAIN")); (py_str "default", PyFloat FNan)].
Definition text_rate : string :=
  "{" ++ quoted "name" ++ ": " ++ quoted "RATE" ++ ", "
      ++ quoted "default" ++ ": 1.5}".
Definition text_nan : string :=
  "{" ++ quoted "name" ++ ": " ++ quoted "GAIN" ++ ", "
      ++ quoted "default" ++ ": NaN}".
Definition option_rate : PyObject := {| obj_id := 4; obj_dict := Some fields_rate |}.
Definition option_nan : PyObject := {| obj_id := 5; obj_dict := Some fields_nan |}.
Definition script_rate : PyModule :=
  {[ "BUILD_OPTIONS" := Sequence [enable_x; option_rate] ]}.
Definition script_nan : PyModule :=
  {[ "BUILD_OPTIONS" := Sequence [option_nan] ]}.

(** The records of [script_two] as other objects, in a module with one
    more attribute. *)
Definition enable_x' : PyObject := {| obj_id := 11; obj_dict := Some fields_x |}.
Definition enable_y' : PyObject := {| obj_id := 12; obj_dict := Some fields_y |}.
Definition script_two' : PyModule :=
  <[ "VERSION" := NotIterable "str" ]>
    {[ "BUILD_OPTIONS" := Sequence [enable_x'; enable_y'] ]}.
(** [[x, y, Opt(...)]], the last record being a copy of [x] *)
Definition script_copied : PyModule :=
  {[ "BUILD_OPTIONS" := Sequence [enable_x; enable_y; enable_x'] ]}.



(** ** Lemmas on text *)

(** A case for each digit. *)
Ltac each_digit d :=
  destruct d as [|d|d|d|d|d|d|d|d|d|d].

Section Text.

Lemma app_assoc_s (a b c : string) : (a ++ b) ++ c = a ++ b ++ c.
Proof. induction a as [|x a IH]; simpl; [reflexivity | now rewrite IH]. Qed.

Lemma app_nil_r_s (a : string) : a ++ "" = a.
Proof. induction a as [|x a IH]; simpl; [reflexivity | now rewrite IH]. Qed.

Lemma length_app_s (a b : string) :
  String.length (a ++ b) = String.length a + String.length b.
Proof. induction a as [|x a IH]; simpl; [reflexivity | now rewrite IH]. Qed.


Lemma all_chars_app p (a b : string) :
  all_chars p (a ++ b) = all_chars p a && all_chars p b.
Proof.
  induction a as [|x a IH]; simpl; [reflexivity|].
  now rewrite IH, andb_assoc.
Qed.


End Text.

(** ** Reading back the numbers of [int.__repr__] *)

Section Numbers.
Import Rfc8259.

Lemma delimiter_no_digit rest : at_delimiter rest = true -> no_digit_ahead rest.
Proof.
  destruct rest as [|c r]; [reflexivity|].
  destruct c as [[] [] [] [] [] [] [] []]; try discriminate; reflexivity.
Qed.

Lemma delimiter_no_frac rest :
  at_delimiter rest = true -> read_frac rest = Some (None, rest).
Proof.
  destruct rest as [|c r]; [reflexivity|].
  destruct c as [[] [] [] [] [] [] [] []]; try discriminate; reflexivity.
Qed.

Lemma delimiter_no_exp rest :
  at_delimiter rest = true -> read_exp rest = Some (None, rest).
Proof.
  destruct rest as [|c r]; [reflexivity|].
  destruct c as [[] [] [] [] [] [] [] []]; try discriminate; reflexivity.
Qed.

Lemma read_digits_uint d rest :
  no_digit_ahead rest ->
  read_digits (NilEmpty.string_of_uint d ++ rest) = (d, rest).
Proof.
  intros Hrest. induction d as [|d IH|d IH|d IH|d IH|d IH|d IH|d IH|d IH|d IH|d IH];
    simpl; try (rewrite IH; reflexivity).
  destruct rest as [|c r]; simpl in *; [reflexivity | now rewrite Hrest].
Qed.

Lemma normal_no_leading_zero d :
  Decimal.unorm (Decimal.D0 d) = Decimal.D0 d -> d = Decimal.Nil.
Proof.
  unfold Decimal.unorm; simpl. intros H.
  destruct (Decimal.nzhead d) eqn:E; try discriminate; try congruence.
  now apply DecimalFacts.nzhead_nonzero in E.
Qed.

Lemma parse_unsigned_uint minus d rest :
  d <> Decimal.Nil -> Decimal.unorm d = d -> at_delimiter rest = true ->
  parse_unsigned minus (NilEmpty.string_of_uint d ++ rest)
  = Some (JNumber minus (N.of_uint d) None None, rest).
Proof.
  intros Hnil Hnorm Hrest. unfold parse_unsigned.
  rewrite read_digits_uint by now apply delimiter_no_digit.
  destruct d as [|d|d|d|d|d|d|d|d|d|d]; try congruence;
    try (rewrite (delimiter_no_frac _ Hrest); simpl;
         rewrite (delimiter_no_exp _ Hrest); reflexivity).
  apply normal_no_leading_zero in Hnorm as ->.
  rewrite (delimiter_no_frac _ Hrest); simpl.
  now rewrite (delimiter_no_exp _ Hrest).
Qed.

Lemma uint_head d :
  d <> Decimal.Nil ->
  exists c r, NilEmpty.string_of_uint d = String c r /\
    is_Some (digit_cons c) /\ c <> "-"%char.
Proof.
  destruct d; intros H; try congruence; simpl;
    eexists _, _; (split; [reflexivity|]); split; try discriminate; eexists; reflexivity.
Qed.

Lemma to_uint_normal n : Decimal.unorm (N.to_uint n) = N.to_uint n.
Proof.
  rewrite <- (DecimalN.Unsigned.of_to n) at 2.
  now rewrite DecimalN.Unsigned.to_of.
Qed.

Lemma to_uint_nonnil n : N.to_uint n <> Decimal.Nil.
Proof.
  destruct n; simpl; [discriminate | apply DecimalPos.Unsigned.to_uint_nonnil].
Qed.

(** [int.__repr__] is an optional minus sign and the decimal digits of
    the absolute value. *)
Lemma int_repr_digits z :
  Json.int_repr z
  = (if (z <? 0)%Z then "-" else "")
      ++ NilEmpty.string_of_uint (N.to_uint (Z.abs_N z)).
Proof.
  unfold Json.int_repr.
  destruct z as [|p|p]; simpl; try reflexivity;
    unfold NilZero.string_of_uint;
    pose proof (DecimalPos.Unsigned.to_uint_nonnil p);
    destruct (Pos.to_uint p); congruence.
Qed.

Lemma parse_number_int z rest :
  at_delimiter rest = true ->
  parse_number (Json.int_repr z ++ rest)
  = Some (JNumber (z <? 0)%Z (Z.abs_N z) None None, rest).
Proof.
  intros Hrest. rewrite int_repr_digits.
  pose proof (parse_unsigned_uint (z <? 0)%Z _ rest
                (to_uint_nonnil (Z.abs_N z)) (to_uint_normal _) Hrest) as P.
  rewrite DecimalN.Unsigned.of_to in P.
  destruct (z <? 0)%Z; simpl; [exact P|].
  destruct (uint_head _ (to_uint_nonnil (Z.abs_N z))) as (c & r & E & _ & Hc).
  rewrite E in *. simpl. unfold parse_number.
  destruct c as [[] [] [] [] [] [] [] []]; try exact P; congruence.
Qed.

Lemma int_repr_head z :
  exists c r, Json.int_repr z = String c r /\ starts_number c = true.
Proof.
  rewrite int_repr_digits. destruct (z <? 0)%Z; simpl.
  - eexists _, _; split; reflexivity.
  - destruct (uint_head _ (to_uint_nonnil (Z.abs_N z))) as (c & r & E & Hd & _).
    exists c, r; split; [exact E|]. unfold starts_number.
    destruct Hd as [k ->]. apply orb_true_r.
Qed.

Lemma parse_value_int fuel z rest :
  at_delimiter rest = true ->
  parse_value (S fuel) (Json.int_repr z ++ rest)
  = Some (JNumber (z <? 0)%Z (Z.abs_N z) None None, rest).
Proof.
  intros Hrest. rewrite <- (parse_number_int z rest Hrest).
  destruct (int_repr_head z) as (c & r & E & Hc).
  rewrite E. simpl. now rewrite Hc.
Qed.

End Numbers.

(** ** Reading back the strings of [encode_basestring_ascii] *)

Section Strings.
Import Rfc8259.

Lemma hex_val_digit d : (d < 16)%N -> hex_val (Json.hex_digit d) = Some d.
Proof.
  intros Hd. unfold Json.hex_digit, hex_val.
  destruct (N.ltb_spec d 10) as [H|H];
    rewrite N_ascii_embedding by lia.
  - replace ((48 <=? 48 + d)%N && (48 + d <=? 57)%N) with true
      by (symmetry; apply andb_true_iff; split; apply N.leb_le; lia).
    f_equal; lia.
  - replace ((48 <=? 87 + d)%N && (87 + d <=? 57)%N) with false
      by (symmetry; apply andb_false_iff; right; apply N.leb_gt; lia).
    replace ((97 <=? 87 + d)%N && (87 + d <=? 102)%N) with true
      by (symmetry; apply andb_true_iff; split; apply N.leb_le; lia).
    f_equal; lia.
Qed.

Lemma nibble_lt n k : (N.land (N.shiftr n k) 15 < 16)%N.
Proof.
  change 15%N with (N.ones 4). rewrite N.land_ones.
  apply N.mod_lt. discriminate.
Qed.

Lemma nibbles n :
  (n < 65536)%N ->
  (((N.land (N.shiftr n 12) 15 * 16 + N.land (N.shiftr n 8) 15) * 16
    + N.land (N.shiftr n 4) 15) * 16 + N.land (N.shiftr n 0) 15 = n)%N.
Proof.
  intros Hn. change 15%N with (N.ones 4).
  rewrite !N.land_ones, !N.shiftr_div_pow2.
  change (2 ^ 12)%N with 4096%N; change (2 ^ 8)%N with 256%N;
    change (2 ^ 4)%N with 16%N; change (2 ^ 0)%N with 1%N.
  rewrite N.div_1_r.
  assert (E1 : (n / 256 = n / 16 / 16)%N) by now rewrite N.Div0.div_div.
  assert (E2 : (n / 4096 = n / 256 / 16)%N) by now rewrite N.Div0.div_div.
  pose proof (N.div_mod n 16 ltac:(discriminate)) as D0.
  pose proof (N.div_mod (n / 16) 16 ltac:(discriminate)) as D1.
  pose proof (N.div_mod (n / 256) 16 ltac:(discriminate)) as D2.
  rewrite <- E1 in D1. rewrite <- E2 in D2.
  assert (n / 4096 < 16)%N by (apply N.Div0.div_lt_upper_bound; lia).
  rewrite (N.mod_small (n / 4096) 16) by assumption.
  lia.
Qed.

Lemma hex4_val_hex4 n tail :
  (n < 65536)%N ->
  parse_chars ("\u" ++ Json.hex4 n ++ tail) = cons_unit n (parse_chars tail).
Proof.
  intros Hn. unfold Json.hex4.
  change (parse_chars ("\u" ++ String ?a (String ?b (String ?c (String ?d "")))
                        ++ tail))
    with (u ← hex4_val a b c d; cons_unit u (parse_chars tail)).
  unfold hex4_val.
  change (N.land n 15) with (N.land (N.shiftr n 0) 15).
  rewrite !hex_val_digit by apply nibble_lt.
  simpl. now rewrite (nibbles n Hn).
Qed.

Lemma surrogate_lt a m :
  (0 < a < 65536)%N -> (N.lor a (N.land m 1023) < 65536)%N.
Proof.
  intros [Ha0 Ha]. change 65536%N with (2 ^ 16)%N.
  assert (N.lor a (N.land m 1023) <> 0)%N as Hnz
    by (rewrite N.lor_eq_0_iff; lia).
  apply N.log2_lt_pow2; [lia|].
  rewrite N.log2_lor. apply N.max_lub_lt.
  - apply N.log2_lt_pow2; assumption.
  - change 1023%N with (N.ones 10). rewrite N.land_ones.
    pose proof (N.mod_lt m (2 ^ 10) ltac:(discriminate)) as Hm.
    set (x := N.modulo m (2 ^ 10)) in *.
    destruct (N.eq_dec x 0%N) as [->|Hz]; [reflexivity|].
    apply N.lt_trans with 10%N; [|reflexivity].
    apply N.log2_lt_pow2; [|exact Hm]. now apply N.neq_0_lt_0.
Qed.

Lemma parse_chars_cons c r :
  parse_chars (String c r)
  = let n := N_of_ascii c in
    if (n =? 34)%N then Some ([], r)
    else if (n =? 92)%N then parse_chars (String "\" r)
    else if (n <? 32)%N then None
    else cons_unit n (parse_chars r).
Proof.
  simpl. destruct (N.eqb_spec (N_of_ascii c) 34) as [|H34]; [reflexivity|].
  destruct (N.eqb_spec (N_of_ascii c) 92) as [H92|]; [|reflexivity].
  reflexivity.
Qed.

Lemma cons_unit_twice a b r : cons_unit a (cons_unit b r) = cons_units [a; b] r.
Proof. destruct r as [[us rest]|]; reflexivity. Qed.

(** One escaped character reads back as the code units of the
    character. *)
Lemma parse_chars_escape c tail :
  parse_chars (Json.escape_char c ++ tail)
  = cons_units (utf16_units c) (parse_chars tail).
Proof.
  unfold Json.escape_char.
  destruct (N.eqb_spec c 92) as [->|H92]; [reflexivity|].
  destruct (N.eqb_spec c 34) as [->|H34]; [reflexivity|].
  destruct (N.eqb_spec c 8) as [->|H8]; [reflexivity|].
  destruct (N.eqb_spec c 12) as [->|H12]; [reflexivity|].
  destruct (N.eqb_spec c 10) as [->|H10]; [reflexivity|].
  destruct (N.eqb_spec c 13) as [->|H13]; [reflexivity|].
  destruct (N.eqb_spec c 9) as [->|H9]; [reflexivity|].
  destruct (Json.printable c) eqn:Hp.
  - apply andb_true_iff in Hp as [Hlo Hhi].
    apply N.leb_le in Hlo, Hhi.
    unfold chr. simpl String.append. rewrite parse_chars_cons.
    rewrite N_ascii_embedding by lia. cbv zeta.
    rewrite (proj2 (N.eqb_neq c 34) H34), (proj2 (N.eqb_neq c 92) H92).
    rewrite (proj2 (N.ltb_ge c 32) Hlo).
    unfold utf16_units. now rewrite (proj2 (N.ltb_lt c 65536)) by lia.
  - unfold utf16_units. destruct (N.ltb_spec c 65536) as [Hc|Hc].
    + rewrite app_assoc_s. now rewrite hex4_val_hex4.
    + cbv zeta. rewrite !app_assoc_s.
      rewrite hex4_val_hex4 by (apply surrogate_lt; lia).
      rewrite hex4_val_hex4 by (apply surrogate_lt; lia).
      apply cons_unit_twice.
Qed.

Lemma parse_chars_escaped s rest :
  parse_chars (concat_str (map Json.escape_char s) ++ DQ ++ rest)
  = Some (utf16 s, rest).
Proof.
  induction s as [|c s IH]; [reflexivity|].
  cbn [map concat_str]. rewrite app_assoc_s, parse_chars_escape, IH.
  reflexivity.
Qed.

(** A string without characters beyond the Basic Multilingual Plane is
    its own sequence of code units. *)
Lemma utf16_bmp s : Forall (fun c => (c < 65536)%N) s -> utf16 s = s.
Proof.
  induction 1 as [|c s Hc _ IH]; [reflexivity|].
  unfold utf16 in *. cbn [flat_map]. rewrite IH. unfold utf16_units.
  now rewrite (proj2 (N.ltb_lt c 65536) Hc).
Qed.

Lemma parse_value_string fuel s rest :
  parse_value (S fuel) (Json.encode_basestring_ascii s ++ rest)
  = Some (JString (utf16 s), rest).
Proof.
  unfold Json.encode_basestring_ascii. rewrite !app_assoc_s.
  change (parse_value (S fuel) (DQ ++ ?x))
    with ('(us, r1) ← parse_chars x; Some (JString us, r1)).
  now rewrite parse_chars_escaped.
Qed.

End Strings.

(** ** Reading back the numbers of [float.__repr__] *)

Section Floats.
Import Rfc8259.

Lemma string_uapp a b :
  NilEmpty.string_of_uint (uapp a b)
  = NilEmpty.string_of_uint a ++ NilEmpty.string_of_uint b.
Proof. induction a; simpl; congruence. Qed.

Lemma string_uzeros n :
  NilEmpty.string_of_uint (uzeros n) = Json.zeros (Z.of_nat n).
Proof.
  unfold Json.zeros, uzeros. rewrite Nat2Z.id.
  induction n as [|n IH]; simpl; congruence.
Qed.

Lemma string_utake n d :
  NilEmpty.string_of_uint (utake n d)
  = Json.take_chars n (NilEmpty.string_of_uint d).
Proof.
  revert d. induction n as [|n IH]; intros d; [now destruct d|].
  each_digit d; simpl; try rewrite IH; reflexivity.
Qed.

Lemma string_udrop n d :
  NilEmpty.string_of_uint (udrop n d)
  = Json.drop_chars n (NilEmpty.string_of_uint d).
Proof.
  revert d. induction n as [|n IH]; intros d; [now destruct d|].
  each_digit d; simpl; try rewrite IH; reflexivity.
Qed.

Lemma length_digits d :
  String.length (NilEmpty.string_of_uint d) = Decimal.nb_digits d.
Proof. induction d; simpl; congruence. Qed.

Lemma take_drop n s : Json.take_chars n s ++ Json.drop_chars n s = s.
Proof.
  revert s. induction n as [|n IH]; intros [|c s]; simpl; try reflexivity.
  now rewrite IH.
Qed.

Lemma take_all n s : String.length s <= n -> Json.take_chars n s = s.
Proof.
  revert s. induction n as [|n IH]; intros [|c s]; simpl; try reflexivity;
    [lia|]. intros H. rewrite IH; [reflexivity | lia].
Qed.

Lemma drop_all n s : String.length s <= n -> Json.drop_chars n s = "".
Proof.
  revert s. induction n as [|n IH]; intros [|c s]; simpl; try reflexivity;
    [lia|]. intros H. apply IH. lia.
Qed.

Lemma udrop_nil n d : n < Decimal.nb_digits d <-> udrop n d <> Decimal.Nil.
Proof.
  revert d. induction n as [|n IH]; intros d.
  - destruct d; simpl; split; intros H; try lia; congruence.
  - each_digit d; simpl; rewrite <- ?IH; split; intros H; try lia; congruence.
Qed.

(** Deleting a trailing decimal point. *)
Lemma strip_dot_app x y : y <> "" -> Json.strip_dot (x ++ y) = x ++ Json.strip_dot y.
Proof.
  intros Hy. induction x as [|c x IH]; [reflexivity|].
  cbn [String.append Json.strip_dot]. rewrite IH.
  destruct (x ++ y) eqn:E; [|reflexivity].
  destruct x; [simpl in E; congruence | discriminate].
Qed.

Lemma strip_dot_none s :
  count_char "." s = 0 -> Json.strip_dot s = s.
Proof.
  induction s as [|c s IH]; [reflexivity|]. cbn [count_char Json.strip_dot].
  destruct (Ascii.eqb_spec c ".") as [->|Hc]; [discriminate|].
  intros H. rewrite (IH H). now destruct s.
Qed.

Lemma digits_no_dot d : count_char "." (NilEmpty.string_of_uint d) = 0.
Proof. induction d; simpl; auto. Qed.

Lemma digits_nonempty d : d <> Decimal.Nil -> NilEmpty.string_of_uint d <> "".
Proof. destruct d; simpl; congruence. Qed.

(** Digits that are written and left as they are. *)
Lemma strip_dot_digits x d :
  d <> Decimal.Nil ->
  Json.strip_dot (x ++ NilEmpty.string_of_uint d)
  = x ++ NilEmpty.string_of_uint d.
Proof.
  intros Hd. rewrite strip_dot_app by now apply digits_nonempty.
  now rewrite strip_dot_none by apply digits_no_dot.
Qed.

(** Digits without a leading zero. *)
Lemma nzhead_normal d :
  Decimal.nzhead d = d -> d <> Decimal.Nil -> Decimal.unorm d = d.
Proof. intros H Hd. unfold Decimal.unorm. rewrite H. now destruct d. Qed.

Lemma nzhead_head d :
  Decimal.nzhead d = d -> d <> Decimal.Nil ->
  forall r, d <> Decimal.D0 r.
Proof.
  intros H Hd r ->. simpl in H.
  exact (DecimalFacts.nzhead_nonzero _ _ H).
Qed.

Lemma nzhead_to_uint p : Decimal.nzhead (Pos.to_uint p) = Pos.to_uint p.
Proof.
  pose proof (DecimalPos.Unsigned.to_uint_nonnil p) as Hnil.
  pose proof (to_uint_normal (Npos p)) as Hn. cbn [N.to_uint] in Hn.
  unfold Decimal.unorm in Hn.
  destruct (Decimal.nzhead (Pos.to_uint p)) eqn:E; try exact Hn.
  exfalso. apply (DecimalPos.Unsigned.to_uint_nonzero p). now rewrite <- Hn.
Qed.

Lemma nzhead_utake n d :
  Decimal.nzhead d = d -> d <> Decimal.Nil ->
  Decimal.nzhead (utake (S n) d) = utake (S n) d /\
  utake (S n) d <> Decimal.Nil.
Proof.
  intros H Hd. pose proof (nzhead_head d H Hd) as H0.
  each_digit d; try congruence; try (now destruct (H0 d));
    split; try reflexivity; discriminate.
Qed.

Lemma nzhead_uapp d z :
  Decimal.nzhead d = d -> d <> Decimal.Nil ->
  Decimal.nzhead (uapp d z) = uapp d z /\ uapp d z <> Decimal.Nil.
Proof.
  intros H Hd. pose proof (nzhead_head d H Hd) as H0.
  each_digit d; try congruence; try (now destruct (H0 d));
    split; try reflexivity; discriminate.
Qed.

Lemma to_of_uint d :
  Decimal.nzhead d = d -> d <> Decimal.Nil -> N.to_uint (N.of_uint d) = d.
Proof.
  intros H Hd. rewrite DecimalN.Unsigned.to_of. now apply nzhead_normal.
Qed.

(** The integer part of a number text, and what the reader does next. *)
Lemma parse_unsigned_digits minus d tail :
  d <> Decimal.Nil -> Decimal.unorm d = d -> no_digit_ahead tail ->
  parse_unsigned minus (NilEmpty.string_of_uint d ++ tail)
  = '(frac, s3) ← read_frac tail;
    '(exp, s4) ← read_exp s3;
    Some (JNumber minus (N.of_uint d) frac exp, s4).
Proof.
  intros Hnil Hnorm Htail. unfold parse_unsigned.
  rewrite read_digits_uint by assumption.
  each_digit d; try congruence; try reflexivity.
  apply normal_no_leading_zero in Hnorm as ->. reflexivity.
Qed.

Lemma read_digits_nonnil d rest (sign : Decimal.uint -> Decimal.int) :
  d <> Decimal.Nil -> no_digit_ahead rest ->
  match read_digits (NilEmpty.string_of_uint d ++ rest) with
  | (Decimal.Nil, _) => None
  | (d', r') => Some (Some (sign d'), r')
  end = Some (Some (sign d), rest).
Proof.
  intros Hd Hrest. rewrite read_digits_uint by assumption.
  destruct d; congruence.
Qed.

(** A number text reads as the number it writes. *)
Lemma parse_number_text minus i frac exp rest :
  (forall d, frac = Some d -> d <> Decimal.Nil) ->
  (forall d, exp = Some (Decimal.Pos d) \/ exp = Some (Decimal.Neg d) ->
             d <> Decimal.Nil) ->
  at_delimiter rest = true ->
  parse_number (number_text minus i frac exp ++ rest)
  = Some (JNumber minus i frac exp, rest).
Proof.
  intros Hfrac Hexp Hrest. unfold number_text.
  set (et := match exp with
             | Some (Decimal.Pos d) => "e+" ++ NilEmpty.string_of_uint d
             | Some (Decimal.Neg d) => "e-" ++ NilEmpty.string_of_uint d
             | None => ""
             end).
  set (ft := match frac with
             | Some d => "." ++ NilEmpty.string_of_uint d
             | None => ""
             end).
  assert (read_exp (et ++ rest) = Some (exp, rest) /\
          no_digit_ahead (et ++ rest) /\
          read_frac (et ++ rest) = Some (None, et ++ rest)) as (He & Hde & Hfe).
  { subst et. destruct exp as [[d|d]|].
    - repeat split.
      cbn [String.append read_exp]. cbv beta.
      change (("e" =? "e")%char || ("e" =? "E")%char) with true. cbv iota.
      apply (read_digits_nonnil d rest Decimal.Pos);
        [apply Hexp; auto | now apply delimiter_no_digit].
    - repeat split.
      cbn [String.append read_exp]. cbv beta.
      change (("e" =? "e")%char || ("e" =? "E")%char) with true. cbv iota.
      apply (read_digits_nonnil d rest Decimal.Neg);
        [apply Hexp; auto | now apply delimiter_no_digit].
    - cbn [String.append]. repeat split.
      + now apply delimiter_no_exp.
      + now apply delimiter_no_digit.
      + now apply delimiter_no_frac. }
  assert (read_frac (ft ++ et ++ rest) = Some (frac, et ++ rest) /\
          no_digit_ahead (ft ++ et ++ rest)) as (Hf & Hdf).
  { subst ft. destruct frac as [d|].
    - split; [|reflexivity]. rewrite app_assoc_s.
      cbn [String.append read_frac].
      pose proof (read_digits_nonnil d (et ++ rest) Decimal.Pos
                    (Hfrac d eq_refl) Hde) as P.
      destruct (read_digits (NilEmpty.string_of_uint d ++ et ++ rest))
        as [d' r'].
      destruct d'; try discriminate; now injection P as -> ->.
    - cbn [String.append]. auto. }
  assert (parse_unsigned minus
            (NilEmpty.string_of_uint (N.to_uint i) ++ ft ++ et ++ rest)
          = Some (JNumber minus i frac exp, rest)) as P.
  { rewrite (parse_unsigned_digits minus _ _ (to_uint_nonnil i)
               (to_uint_normal i) Hdf).
    rewrite Hf. cbn. rewrite He. cbn.
    now rewrite DecimalN.Unsigned.of_to. }
  rewrite !app_assoc_s.
  destruct minus; cbn [String.append]; [exact P|].
  destruct (uint_head _ (to_uint_nonnil i)) as (c & r & E & _ & Hc).
  rewrite E in *. cbn [String.append] in *. unfold parse_number.
  destruct c as [[] [] [] [] [] [] [] []]; try exact P; congruence.
Qed.

Lemma exp_repr_text e :
  "e" ++ Json.exp_repr e
  = match exp_int e with
    | Decimal.Pos d => "e+" ++ NilEmpty.string_of_uint d
    | Decimal.Neg d => "e-" ++ NilEmpty.string_of_uint d
    end.
Proof.
  unfold Json.exp_repr, exp_int. rewrite length_digits.
  destruct (e <? 0)%Z, (Decimal.nb_digits (N.to_uint (Z.abs_N e)) <? 2)%nat;
    reflexivity.
Qed.

Lemma exp_int_nonnil e d :
  Some (exp_int e) = Some (Decimal.Pos d) \/
  Some (exp_int e) = Some (Decimal.Neg d) -> d <> Decimal.Nil.
Proof.
  unfold exp_int. pose proof (to_uint_nonnil (Z.abs_N e)) as H.
  destruct (e <? 0)%Z, (Decimal.nb_digits (N.to_uint (Z.abs_N e)) <? 2)%nat;
    intros [[= <-]|[= <-]]; congruence.
Qed.

Lemma nb_digits_pos d : d <> Decimal.Nil -> 0 < Decimal.nb_digits d.
Proof. destruct d; simpl; intros H; try congruence; lia. Qed.

Lemma uapp_nil_r d : uapp d Decimal.Nil = d.
Proof. induction d; simpl; congruence. Qed.

Lemma app_nil_l_s (x : string) : "" ++ x = x.
Proof. reflexivity. Qed.

Lemma strip_dot_point x : Json.strip_dot (x ++ ".") = x.
Proof. rewrite strip_dot_app by discriminate. apply app_nil_r_s. Qed.

Lemma strip_dot_frac x d :
  d <> Decimal.Nil ->
  Json.strip_dot (x ++ "." ++ NilEmpty.string_of_uint d)
  = x ++ "." ++ NilEmpty.string_of_uint d.
Proof.
  intros Hd. rewrite <- app_assoc_s. now apply strip_dot_digits.
Qed.

(** What [format_float_short] writes for digits without a leading zero
    is the text of the number of these digits. *)
Lemma format_digits negative ds decpt :
  Decimal.nzhead ds = ds -> ds <> Decimal.Nil ->
  Json.format_float_short negative (NilEmpty.string_of_uint ds) decpt
  = json_text (digits_number negative ds decpt).
Proof.
  intros Hnz Hnil. pose proof (nb_digits_pos ds Hnil) as Hpos.
  unfold Json.format_float_short, digits_number. rewrite length_digits.
  set (n := Z.of_nat (Decimal.nb_digits ds)).
  assert (1 <= n)%Z as Hn by lia.
  assert (forall a c : Z, (a <= c <= a + 1)%Z ->
            (if (a <? n)%Z then n else c) = Z.max n c) as Hmax
    by (intros a c Hac; destruct (Z.ltb_spec a n); lia).
  set (sign := if negative then "-" else "").
  replace (decpt <? -3)%Z with (decpt <=? -4)%Z
    by (destruct (Z.leb_spec decpt (-4)), (Z.ltb_spec decpt (-3)); lia).
  destruct ((decpt <=? -4)%Z || (16 <? decpt)%Z) eqn:Hexp.
  - (* scientific notation *)
    cbv zeta. change (1 <=? 0)%Z with false. change (0 <? 1)%Z with true.
    cbn [negb]. cbv iota. rewrite Hmax by lia.
    rewrite (proj2 (Z.leb_le 1 n) Hn), (proj2 (Z.ltb_ge n 1) Hn).
    cbn [andb]. replace (Z.max n 1 - n)%Z with 0%Z by lia.
    change (Json.zeros (0 - 0)) with "". change (Json.zeros 0) with "".
    change (Z.to_nat 1) with 1%nat.
    rewrite <- string_utake, <- string_udrop.
    cbn [json_text]. unfold number_text. fold sign.
    destruct (nzhead_utake 0 ds Hnz Hnil) as [Ht Htn].
    rewrite (to_of_uint _ Ht Htn), <- exp_repr_text.
    rewrite !app_nil_r_s, !app_nil_l_s, <- (app_assoc_s sign).
    destruct (udrop 1 ds) eqn:Ed;
      [|rewrite strip_dot_frac by discriminate; now rewrite !app_assoc_s..].
    cbn [NilEmpty.string_of_uint]. change ("." ++ "") with ".".
    now rewrite strip_dot_point, app_nil_l_s, app_assoc_s.
  - apply orb_false_iff in Hexp as [Hlo%Z.leb_gt Hhi%Z.ltb_ge].
    cbv zeta. cbn [negb]. cbv iota. rewrite Hmax by lia.
    replace (decpt <? 1)%Z with (decpt <=? 0)%Z
      by (destruct (Z.leb_spec decpt 0), (Z.ltb_spec decpt 1); lia).
    destruct (Z.leb_spec decpt 0) as [H0|H0].
    + (* 0.00ddd *)
      rewrite (proj2 (Z.ltb_ge 0 decpt)) by lia. cbn [andb].
      rewrite (proj2 (Z.ltb_ge n decpt)) by lia.
      replace (decpt - (decpt - 1))%Z with 1%Z by lia.
      replace (Z.max n (decpt + 1) - n)%Z with 0%Z by lia.
      change (Json.zeros 1) with "0". change (Json.zeros 0) with "".
      cbn [json_text]. unfold number_text. fold sign.
      rewrite string_uapp, string_uzeros, Z2Nat.id by lia.
      replace (0 - decpt)%Z with (- decpt)%Z by lia.
      change (NilEmpty.string_of_uint (N.to_uint 0)) with "0".
      rewrite !app_nil_r_s.
      rewrite <- !app_assoc_s, strip_dot_digits by assumption.
      reflexivity.
    + rewrite (proj2 (Z.ltb_lt 0 decpt)) by lia. cbn [andb].
      change (Json.zeros (0 - 0)) with "".
      destruct (Z.ltb_spec decpt n) as [Hlt|Hge].
      * (* ddd.ddd *)
        rewrite (proj2 (Z.leb_le decpt n)) by lia.
        rewrite (proj2 (Z.ltb_ge n decpt)) by lia.
        replace (Z.max n (decpt + 1) - n)%Z with 0%Z by lia.
        change (Json.zeros 0) with "".
        rewrite <- string_utake, <- string_udrop.
        cbn [json_text]. unfold number_text. fold sign.
        assert (Z.to_nat decpt = S (Z.to_nat (decpt - 1))) as Ek by lia.
        pose proof (nzhead_utake (Z.to_nat (decpt - 1)) ds Hnz Hnil) as Ht.
        rewrite <- Ek in Ht. destruct Ht as [Ht Htn].
        rewrite (to_of_uint _ Ht Htn).
        rewrite !app_nil_r_s, !app_nil_l_s, <- (app_assoc_s sign).
        rewrite strip_dot_frac by (apply udrop_nil; lia).
        now rewrite !app_assoc_s.
      * (* ddd000.0 *)
        cbn [json_text]. unfold number_text. fold sign.
        destruct (nzhead_uapp ds (uzeros (Z.to_nat (decpt - n))) Hnz Hnil)
          as [Ha Han].
        rewrite (to_of_uint _ Ha Han), string_uapp, string_uzeros.
        rewrite Z2Nat.id by lia. rewrite !app_nil_r_s, !app_nil_l_s.
        change "0" with (NilEmpty.string_of_uint (Decimal.D0 Decimal.Nil)).
        destruct (Z.eq_dec decpt n) as [->|Hne].
        -- rewrite Z.leb_refl, Z.ltb_irrefl.
           replace (Z.max n (n + 1) - n)%Z with 1%Z by lia.
           replace (n - n)%Z with 0%Z by lia.
           change (Json.zeros 0) with "". change (Json.zeros 1) with "0".
           rewrite take_all, drop_all by (rewrite length_digits; lia).
           rewrite !app_nil_r_s.
           change "0" with (NilEmpty.string_of_uint (Decimal.D0 Decimal.Nil)).
           rewrite !app_assoc_s, <- (app_assoc_s sign).
           rewrite strip_dot_frac by discriminate.
           now rewrite !app_assoc_s.
        -- rewrite (proj2 (Z.leb_gt decpt n)) by lia.
           rewrite (proj2 (Z.ltb_lt n decpt)) by lia.
           replace (Z.max n (decpt + 1) - decpt)%Z with 1%Z by lia.
           change (Json.zeros 1) with "0".
           change "0" with (NilEmpty.string_of_uint (Decimal.D0 Decimal.Nil)).
           rewrite <- (app_assoc_s (NilEmpty.string_of_uint ds)).
           rewrite <- (app_assoc_s sign).
           rewrite strip_dot_frac by discriminate.
           now rewrite !app_assoc_s.
Qed.

(** What [floatstr] writes for a finite float is the text of its
    number. *)
Lemma floatstr_text x j :
  float_number x = Some j -> Json.floatstr x = json_text j.
Proof.
  destruct x as [| neg | neg | neg digits decpt]; try discriminate;
    intros [= <-].
  - now destruct neg.
  - unfold Json.floatstr, Json.float_repr.
    apply format_digits;
      [apply nzhead_to_uint | apply DecimalPos.Unsigned.to_uint_nonnil].
Qed.

Lemma digits_number_wf negative ds decpt :
  Decimal.nzhead ds = ds -> ds <> Decimal.Nil ->
  exists i frac exp,
    digits_number negative ds decpt = JNumber negative i frac exp /\
    (forall d, frac = Some d -> d <> Decimal.Nil) /\
    (forall d, exp = Some (Decimal.Pos d) \/ exp = Some (Decimal.Neg d) ->
               d <> Decimal.Nil).
Proof.
  intros Hnz Hnil. unfold digits_number.
  destruct ((decpt <? -3)%Z || (16 <? decpt)%Z).
  - eexists _, _, _. split; [reflexivity|]. split.
    + intros d. destruct (udrop 1 ds); intros [= <-]; discriminate.
    + apply exp_int_nonnil.
  - destruct (Z.ltb_spec decpt 1) as [H1|H1];
      [|destruct (Z.ltb_spec decpt (Z.of_nat (Decimal.nb_digits ds))) as [H2|H2]];
      eexists _, _, _; (split; [reflexivity|]); split;
      try (intros d [[=]|[=]]); intros d [= <-]; try discriminate.
    + intros E. apply (f_equal Decimal.nb_digits) in E.
      rewrite <- length_digits, string_uapp, length_app_s, !length_digits in E.
      pose proof (nb_digits_pos ds Hnil). simpl in E. lia.
    + apply udrop_nil. lia.
Qed.

(** The text of a finite float reads as its number. *)
Lemma parse_value_float fuel x j rest :
  float_number x = Some j -> at_delimiter rest = true ->
  parse_value (S fuel) (Json.floatstr x ++ rest) = Some (j, rest).
Proof.
  intros Hj Hrest. rewrite (floatstr_text x j Hj).
  assert (exists minus i frac exp,
            j = JNumber minus i frac exp /\
            (forall d, frac = Some d -> d <> Decimal.Nil) /\
            (forall d, exp = Some (Decimal.Pos d) \/
                       exp = Some (Decimal.Neg d) -> d <> Decimal.Nil))
    as (minus & i & frac & exp & -> & Hfrac & Hexp).
  { destruct x as [| neg | neg | neg digits decpt]; try discriminate;
      injection Hj as <-.
    - eexists _, _, _, _. split; [reflexivity|]. split.
      + intros d [= <-]. discriminate.
      + intros d [[=]|[=]].
    - destruct (digits_number_wf neg (Pos.to_uint digits) decpt
                  (nzhead_to_uint digits)
                  (DecimalPos.Unsigned.to_uint_nonnil digits))
        as (i & frac & exp & E & H). rewrite E.
      eexists _, _, _, _. split; [reflexivity | exact H]. }
  cbn [json_text].
  rewrite <- (parse_number_text minus i frac exp rest Hfrac Hexp Hrest).
  unfold number_text.
  destruct minus; cbn [String.append parse_value];
    [reflexivity|].
  destruct (uint_head _ (to_uint_nonnil i)) as (c & r & E & Hd & _).
  rewrite E. cbn [String.append parse_value]. unfold starts_number.
  destruct Hd as [k ->]. now rewrite orb_true_r.
Qed.

End Floats.

(** ** The value of the number a float is written as *)

Section FloatValue.
Import Rfc8259.

Lemma digits_value_uapp acc a b :
  digits_value acc (uapp a b) = digits_value (digits_value acc a) b.
Proof. revert acc. induction a; intros acc; simpl; auto. Qed.

Lemma digits_value_acc acc d :
  digits_value acc d
  = (acc * 10 ^ N.of_nat (Decimal.nb_digits d) + digits_value 0 d)%N.
Proof.
  revert acc.
  induction d as [|d IH|d IH|d IH|d IH|d IH|d IH|d IH|d IH|d IH|d IH];
    intros acc; cbn [digits_value Decimal.nb_digits];
    [simpl; lia | ..];
    rewrite IH; symmetry; rewrite IH; symmetry;
    rewrite Nat2N.inj_succ, N.pow_succ_r'; lia.
Qed.

Lemma of_uint_acc_value d acc :
  Npos (Pos.of_uint_acc d acc) = digits_value (Npos acc) d.
Proof.
  revert acc. induction d; intros acc; cbn [Pos.of_uint_acc digits_value];
    [reflexivity | rewrite IHd; f_equal; lia ..].
Qed.

Lemma of_uint_value d : N.of_uint d = digits_value 0 d.
Proof.
  unfold N.of_uint.
  induction d; cbn [Pos.of_uint digits_value]; try reflexivity;
    [exact IHd | rewrite of_uint_acc_value; f_equal ..].
Qed.

Lemma digits_value_zeros acc k :
  digits_value acc (uzeros k) = (acc * 10 ^ N.of_nat k)%N.
Proof.
  revert acc. induction k as [|k IH]; intros acc.
  - simpl. lia.
  - change (uzeros (S k)) with (Decimal.D0 (uzeros k)).
    cbn [digits_value]. rewrite IH, Nat2N.inj_succ, N.pow_succ_r'. lia.
Qed.

Lemma utake_udrop k d : uapp (utake k d) (udrop k d) = d.
Proof.
  revert d. induction k as [|k IH]; intros d; [reflexivity|].
  each_digit d; simpl; rewrite ?IH; reflexivity.
Qed.

Lemma nb_digits_uapp a b :
  Decimal.nb_digits (uapp a b) = Decimal.nb_digits a + Decimal.nb_digits b.
Proof. induction a; simpl; auto. Qed.

Lemma nb_digits_uzeros k : Decimal.nb_digits (uzeros k) = k.
Proof. induction k as [|k IH]; simpl; auto. Qed.

Lemma nb_digits_utake k d :
  k <= Decimal.nb_digits d -> Decimal.nb_digits (utake k d) = k.
Proof.
  revert d. induction k as [|k IH]; intros d Hk; [reflexivity|].
  each_digit d; simpl in *; try lia; rewrite IH; lia.
Qed.

Lemma nb_digits_udrop k d :
  k <= Decimal.nb_digits d ->
  Decimal.nb_digits (udrop k d) = Decimal.nb_digits d - k.
Proof.
  intros Hk. pose proof (nb_digits_uapp (utake k d) (udrop k d)) as H.
  rewrite utake_udrop, nb_digits_utake in H by assumption. lia.
Qed.

Lemma of_int_exp e : Z.of_int (exp_int e) = e.
Proof.
  unfold exp_int.
  assert (forall d, Z.of_uint (if (Decimal.nb_digits d <? 2)%nat
                               then Decimal.D0 d else d)
                    = Z.of_N (N.of_uint d)) as H
    by (intros d; now destruct (Decimal.nb_digits d <? 2)%nat).
  destruct (Z.ltb_spec e 0); cbn [Z.of_int]; rewrite H,
    DecimalN.Unsigned.of_to; lia.
Qed.

Lemma same_decimal_refl a : same_decimal a a.
Proof. split; reflexivity. Qed.

(** Taking the first digits as the integer part and the others as the
    fraction leaves the coefficient as it is. *)
Lemma split_value k ds :
  digits_value (N.of_uint (utake k ds)) (udrop k ds) = N.of_uint ds.
Proof.
  now rewrite !of_uint_value, <- digits_value_uapp, utake_udrop.
Qed.

(** The number of the digits has the value of the digits. *)
Lemma digits_number_value negative ds decpt :
  ds <> Decimal.Nil ->
  exists v,
    number_value (digits_number negative ds decpt) = Some v /\
    same_decimal v
      {| dec_minus := negative;
         dec_coefficient := N.of_uint ds;
         dec_exponent := decpt - Z.of_nat (Decimal.nb_digits ds) |}.
Proof.
  intros Hnil. pose proof (nb_digits_pos ds Hnil) as Hpos.
  unfold digits_number.
  destruct ((decpt <? -3)%Z || (16 <? decpt)%Z).
  - eexists. split; [reflexivity|].
    assert (match match udrop 1 ds with
                  | Decimal.Nil => None
                  | r => Some r
                  end with
            | Some d => d
            | None => Decimal.Nil
            end = udrop 1 ds) as -> by now destruct (udrop 1 ds).
    rewrite split_value, of_int_exp, nb_digits_udrop by lia.
    replace (decpt - 1 - Z.of_nat (Decimal.nb_digits ds - 1))%Z
      with (decpt - Z.of_nat (Decimal.nb_digits ds))%Z by lia.
    apply same_decimal_refl.
  - destruct (Z.ltb_spec decpt 1) as [H1|H1];
      [|destruct (Z.ltb_spec decpt (Z.of_nat (Decimal.nb_digits ds)))
          as [H2|H2]];
      (eexists; split; [reflexivity|]).
    + cbn [digits_value].
      rewrite digits_value_uapp, digits_value_zeros, N.mul_0_l.
      rewrite <- of_uint_value, nb_digits_uapp, nb_digits_uzeros.
      replace (0 - Z.of_nat (Z.to_nat (- decpt) + Decimal.nb_digits ds))%Z
        with (decpt - Z.of_nat (Decimal.nb_digits ds))%Z by lia.
      apply same_decimal_refl.
    + rewrite split_value, nb_digits_udrop by lia.
      replace (0 - Z.of_nat (Decimal.nb_digits ds - Z.to_nat decpt))%Z
        with (decpt - Z.of_nat (Decimal.nb_digits ds))%Z by lia.
      apply same_decimal_refl.
    + set (z := (decpt - Z.of_nat (Decimal.nb_digits ds))%Z) in *.
      rewrite of_uint_value, digits_value_uapp, <- of_uint_value.
      rewrite digits_value_zeros. cbn [digits_value Decimal.nb_digits].
      split; [reflexivity|]. cbn [dec_coefficient dec_exponent].
      replace (Z.min (0 - Z.of_nat 1) z) with (-1)%Z by lia.
      replace (0 - Z.of_nat 1 - -1)%Z with 0%Z by lia.
      replace (z - -1)%Z with (Z.succ z) by lia.
      rewrite Z.pow_succ_r, Z.pow_0_r by lia.
      rewrite !N2Z.inj_mul, N2Z.inj_pow, nat_N_Z, Z2Nat.id by lia.
      change (Z.of_N 10) with 10%Z. lia.
Qed.

(** The number a finite float is written as has the value of the
    float. *)
Lemma float_number_value x w :
  float_value x = Some w ->
  exists j v,
    float_number x = Some j /\ number_value j = Some v /\ same_decimal v w.
Proof.
  destruct x as [| neg | neg | neg digits decpt]; try discriminate;
    intros [= <-].
  - eexists _, _. split; [reflexivity|]. split; [reflexivity|].
    split; reflexivity.
  - destruct (digits_number_value neg (Pos.to_uint digits) decpt
                (DecimalPos.Unsigned.to_uint_nonnil digits)) as (v & Hv & Hs).
    exists (digits_number neg (Pos.to_uint digits) decpt), v.
    split; [reflexivity|]. split; [exact Hv|].
    change (N.of_uint (Pos.to_uint digits))
      with (Pos.of_uint (Pos.to_uint digits)) in Hs.
    now rewrite DecimalPos.Unsigned.of_to in Hs.
Qed.

End FloatValue.

(** The texts of some floats, as Python prints them. *)
Example floatstr_examples :
  map Json.floatstr
    [FFinite false 15 1; FFinite false 1 3; FFinite false 1 17;
     FFinite true 15 (-6); FFinite false 1 (-3); FFinite false 1 (-4);
     FZero true; FFinite false 123456 3; FFinite false 12 16;
     FFinite false 17976931348623157 309; FFinite false 5 (-323);
     FNan; FInf false; FInf true]
  = ["1.5"; "100.0"; "1e+16"; "-1.5e-07"; "0.0001"; "1e-05"; "-0.0";
     "123.456"; "1200000000000000.0"; "1.7976931348623157e+308"; "5e-324";
     "NaN"; "Infinity"; "-Infinity"].
Proof. reflexivity. Qed.

Example float_record_loads :
  json_dumps fields_rate = Ok text_rate /\
  Rfc8259.loads text_rate
  = Some (Rfc8259.JObject
            [(py_str "name", Rfc8259.JString (py_str "RATE"));
             (py_str "default",
              Rfc8259.JNumber false 1 (Some (Decimal.D5 Decimal.Nil)) None)]).
Proof. split; reflexivity. Qed.

(** ** Reading back what the encoder writes *)

Section Values.
Import Rfc8259.

Lemma PyValue_nested_ind (P : PyValue -> Prop)
  (HNone : P PyNone)
  (HBool : forall b, P (PyBool b))
  (HInt : forall z, P (PyInt z))
  (HFloat : forall x, P (PyFloat x))
  (HStr : forall s, P (PyString s))
  (HList : forall items, Forall P items -> P (PyList items))
  (HDict : forall items, Forall (fun kv => P (snd kv)) items -> P (PyDict items))
  (HOther : forall t, P (PyOther t)) :
  forall v, P v.
Proof.
  fix IH 1. intros [| b | z | x | s | items | items | t].
  - exact HNone.
  - apply HBool.
  - apply HInt.
  - apply HFloat.
  - apply HStr.
  - apply HList. induction items as [|v items IHl]; constructor;
      [apply IH | exact IHl].
  - apply HDict. induction items as [|[k v] items IHl]; constructor;
      [apply IH | exact IHl].
  - apply HOther.
Qed.

Lemma mapM_ok_cons {A B} (f : A -> PyResult B) a l bs :
  mapM f (a :: l) = Ok bs ->
  exists b bs', f a = Ok b /\ mapM f l = Ok bs' /\ bs = b :: bs'.
Proof.
  cbn. destruct (f a) as [b|e]; cbn; [|discriminate].
  destruct (mapM f l) as [bs'|e]; cbn; [|discriminate].
  intros [= <-]. eauto.
Qed.

Lemma mapM_transfer {A B C} (f : A -> PyResult B) (g : A -> option C)
    (R : B -> C -> Prop) l :
  Forall (fun a => forall b, f a = Ok b -> exists c, g a = Some c /\ R b c) l ->
  forall bs, mapM f l = Ok bs ->
  exists cs, mapM g l = Some cs /\ Forall2 R bs cs.
Proof.
  induction 1 as [|a l Ha _ IH]; intros bs Hbs.
  - injection Hbs as <-. exists []. split; [reflexivity | constructor].
  - apply mapM_ok_cons in Hbs as (b & bs' & Hb & Hbs' & ->).
    destruct (Ha b Hb) as (c & Hc & Hbc).
    destruct (IH bs' Hbs') as (cs & Hcs & Hall).
    exists (c :: cs). split; [|now constructor].
    cbn. rewrite Hc. cbn. rewrite Hcs. reflexivity.
Qed.

Lemma skip_ws_app w s :
  all_chars is_ws w = true -> skip_ws (w ++ s) = skip_ws s.
Proof.
  induction w as [|c w IH]; simpl; [reflexivity|].
  intros [Hc Hw]%andb_true_iff. rewrite Hc. now apply IH.
Qed.

(** A text that reads as a value starts with a character that is neither
    whitespace nor a closing bracket. *)
Lemma reads_as_head t j :
  reads_as t j ->
  exists c r, t = String c r /\ is_ws c = false /\
    (c =? "]")%char = false /\ (c =? "}")%char = false.
Proof.
  intros H. specialize (H (S (String.length t)) "" ltac:(lia) eq_refl).
  rewrite app_nil_r_s in H.
  destruct t as [|c r]; [discriminate|]. exists c, r. split; [reflexivity|].
  repeat split.
  - destruct (is_ws c) eqn:E; [|reflexivity].
    destruct c as [[] [] [] [] [] [] [] []]; try discriminate E;
      discriminate H.
  - destruct (Ascii.eqb_spec c "]") as [->|]; [discriminate H | reflexivity].
  - destruct (Ascii.eqb_spec c "}") as [->|]; [discriminate H | reflexivity].
Qed.

Lemma skip_ws_reads t j s : reads_as t j -> skip_ws (t ++ s) = t ++ s.
Proof.
  intros (c & r & -> & Hc & _)%reads_as_head. simpl. now rewrite Hc.
Qed.

Lemma parse_elements_S fuel s :
  parse_elements (S fuel) s
  = '(v, r) ← parse_value fuel s;
    match skip_ws r with
    | String c r1 =>
        if (c =? ",")%char then
          '(vs, r2) ← parse_elements fuel (skip_ws r1); Some (v :: vs, r2)
        else if (c =? "]")%char then Some ([v], r1)
        else None
    | "" => None
    end.
Proof. reflexivity. Qed.

Lemma join_cons sep t t' ts :
  join sep (t :: t' :: ts) = t ++ sep ++ join sep (t' :: ts).
Proof. reflexivity. Qed.

Lemma join_reads_head sep ts js :
  Forall2 reads_as ts js -> ts <> [] ->
  exists c r, join sep ts = String c r /\ is_ws c = false /\
    (c =? "]")%char = false /\ (c =? "}")%char = false.
Proof.
  intros [|t j ts' js' Ht _] Hne; [congruence|].
  destruct (reads_as_head _ _ Ht) as (c & r & -> & Hc).
  destruct ts'; cbn [join]; simpl; eauto.
Qed.

Lemma skip_ws_join sep ts js s :
  Forall2 reads_as ts js -> ts <> [] ->
  skip_ws (join sep ts ++ s) = join sep ts ++ s.
Proof.
  intros H Hne.
  destruct (join_reads_head sep _ _ H Hne) as (c & r & -> & Hc & _).
  simpl. now rewrite Hc.
Qed.

(** The elements of an array, separated by a comma and any whitespace,
    up to the closing bracket. *)
Lemma parse_elements_join w ts js :
  all_chars is_ws w = true ->
  Forall2 reads_as ts js -> ts <> [] ->
  forall fuel rest,
    String.length (join (String "," w) ts) + 1 < fuel ->
    parse_elements fuel (join (String "," w) ts ++ String "]" rest)
    = Some (js, rest).
Proof.
  intros Hw H. induction H as [|t j ts js Ht Hrest IH]; [congruence|].
  intros _ fuel rest Hfuel. destruct fuel as [|fuel]; [lia|].
  rewrite parse_elements_S. destruct ts as [|t' ts'].
  - inversion Hrest; subst. cbn [join] in *.
    rewrite (Ht fuel (String "]" rest)) by (try reflexivity; lia).
    reflexivity.
  - rewrite join_cons in *. rewrite !length_app_s in Hfuel.
    cbn [String.length] in Hfuel.
    rewrite !app_assoc_s.
    rewrite (Ht fuel) by (try reflexivity; lia).
    cbn -[join parse_elements skip_ws].
    change (skip_ws (String "," ?x)) with (String "," x). cbn iota.
    change (("," =? ",")%char) with true. cbn iota.
    rewrite skip_ws_app by assumption.
    rewrite (skip_ws_join _ _ _ _ Hrest) by discriminate.
    rewrite IH by (try discriminate; lia). reflexivity.
Qed.

Lemma parse_members_key fuel k s :
  parse_members (S fuel) (Json.encode_basestring_ascii k ++ s)
  = match skip_ws s with
    | String c2 r2 =>
        if (c2 =? ":")%char then
          '(v, r3) ← parse_value fuel (skip_ws r2);
          match skip_ws r3 with
          | String c4 r4 =>
              if (c4 =? ",")%char then
                '(ms, r5) ← parse_members fuel (skip_ws r4);
                Some ((utf16 k, v) :: ms, r5)
              else if (c4 =? "}")%char then Some ([(utf16 k, v)], r4)
              else None
          | "" => None
          end
        else None
    | "" => None
    end.
Proof.
  unfold Json.encode_basestring_ascii. rewrite !app_assoc_s.
  change (DQ ++ ?x) with (String dquote x).
  cbn [parse_members]. change ((dquote =? dquote)%char) with true. cbn iota.
  rewrite parse_chars_escaped. reflexivity.
Qed.

Lemma join_members_head sep chunks ms :
  Forall2 member_reads chunks ms -> chunks <> [] ->
  exists r, join sep chunks = String dquote r.
Proof.
  intros [|chunk m chunks' ms' (k & t & -> & _) _] Hne; [congruence|].
  destruct chunks'; cbn [join]; unfold Json.encode_basestring_ascii;
    rewrite ?app_assoc_s; simpl; eauto.
Qed.

(** The members of an object, up to the closing brace. *)
Lemma parse_members_join w chunks ms :
  all_chars is_ws w = true ->
  Forall2 member_reads chunks ms -> chunks <> [] ->
  forall fuel rest,
    String.length (join (String "," w) chunks) + 1 < fuel ->
    parse_members fuel (join (String "," w) chunks ++ String "}" rest)
    = Some (ms, rest).
Proof.
  intros Hw H. induction H as [|chunk [mk mj] chunks ms Hm Hrest IH]; [congruence|].
  intros _ fuel rest Hfuel. destruct fuel as [|fuel]; [lia|].
  destruct Hm as (k & t & -> & Hk & Ht). simpl in Hk, Ht. subst mk.
  destruct chunks as [|chunk' chunks'].
  - inversion Hrest; subst. cbn [join] in *.
    rewrite !length_app_s in Hfuel. cbn [String.length] in Hfuel.
    rewrite !app_assoc_s, parse_members_key.
    cbn -[parse_value parse_members].
    rewrite (skip_ws_reads _ _ _ Ht).
    rewrite (Ht fuel (String "}" rest)) by (try reflexivity; lia).
    reflexivity.
  - rewrite join_cons in *. rewrite !length_app_s in Hfuel.
    cbn [String.length] in Hfuel.
    rewrite !app_assoc_s, parse_members_key.
    cbn -[parse_value parse_members join].
    rewrite (skip_ws_reads _ _ _ Ht).
    rewrite (Ht fuel) by (try reflexivity; lia).
    cbn -[parse_value parse_members join skip_ws].
    change (skip_ws (String "," ?x)) with (String "," x). cbn iota.
    change (("," =? ",")%char) with true. cbn iota.
    rewrite skip_ws_app by assumption.
    destruct (join_members_head (String "," w) _ _ Hrest ltac:(discriminate))
      as (r & Er).
    assert (skip_ws (join (String "," w) (chunk' :: chunks') ++ String "}" rest)
            = join (String "," w) (chunk' :: chunks') ++ String "}" rest) as ->
      by (rewrite Er; reflexivity).
    rewrite IH by (try discriminate; lia). reflexivity.
Qed.

Lemma parse_value_array fuel x :
  parse_value (S fuel) (String "[" x)
  = match skip_ws x with
    | String c1 r1 =>
        if (c1 =? "]")%char then Some (JArray [], r1)
        else '(vs, r2) ← parse_elements fuel (String c1 r1);
             Some (JArray vs, r2)
    | "" => None
    end.
Proof. reflexivity. Qed.

Lemma parse_value_object fuel x :
  parse_value (S fuel) (String "{" x)
  = match skip_ws x with
    | String c1 r1 =>
        if (c1 =? "}")%char then Some (JObject [], r1)
        else '(ms, r2) ← parse_members fuel (String c1 r1);
             Some (JObject ms, r2)
    | "" => None
    end.
Proof. reflexivity. Qed.

(** An array text: a bracket, the elements, a bracket. *)
Lemma reads_array w ts js :
  all_chars is_ws w = true ->
  Forall2 reads_as ts js ->
  reads_as ("[" ++ join (String "," w) ts ++ "]") (JArray js).
Proof.
  intros Hw Hall fuel rest Hfuel Hrest.
  cbn [String.append String.length] in *.
  rewrite length_app_s in Hfuel. cbn [String.length] in Hfuel.
  destruct fuel as [|fuel]; [lia|].
  rewrite app_assoc_s, parse_value_array.
  change ("]" ++ rest) with (String "]" rest).
  destruct ts as [|t ts].
  { inversion Hall; subst. reflexivity. }
  rewrite (skip_ws_join _ _ _ _ Hall) by discriminate.
  pose proof (parse_elements_join w _ _ Hw Hall ltac:(discriminate) fuel rest
                ltac:(lia)) as P.
  destruct (join_reads_head (String "," w) _ _ Hall ltac:(discriminate))
    as (c & r & E & _ & Hc & _).
  rewrite E in *. cbn [String.append] in *. rewrite Hc, P. reflexivity.
Qed.

(** An object text: a brace, the members, a brace. *)
Lemma reads_object w chunks ms :
  all_chars is_ws w = true ->
  Forall2 member_reads chunks ms ->
  reads_as ("{" ++ join (String "," w) chunks ++ "}") (JObject ms).
Proof.
  intros Hw Hall fuel rest Hfuel Hrest.
  cbn [String.append String.length] in *.
  rewrite length_app_s in Hfuel. cbn [String.length] in Hfuel.
  destruct fuel as [|fuel]; [lia|].
  rewrite app_assoc_s, parse_value_object.
  change ("}" ++ rest) with (String "}" rest).
  destruct chunks as [|chunk chunks].
  { inversion Hall; subst. reflexivity. }
  pose proof (parse_members_join w _ _ Hw Hall ltac:(discriminate) fuel rest
                ltac:(lia)) as P.
  destruct (join_members_head (String "," w) _ _ Hall ltac:(discriminate))
    as (r & E).
  rewrite E in *. cbn [String.append] in *.
  change (skip_ws (String dquote ?x)) with (String dquote x). cbn iota.
  change ((dquote =? "}")%char) with false. cbn iota.
  rewrite P. reflexivity.
Qed.

Lemma utf16_py_str s : utf16 (py_str s) = py_str s.
Proof.
  apply utf16_bmp. unfold py_str.
  induction (list_ascii_of_string s) as [|a l IH]; constructor; [|exact IH].
  pose proof (N_ascii_bounded a). lia.
Qed.

(** The key the encoder writes is the key of the member. *)
Lemma json_key_str k ks : Json.key_str k = Ok ks -> json_key k = Some (utf16 ks).
Proof.
  destruct k as [| b | z | x | s | items | items | t]; try discriminate.
  - intros [= <-]. reflexivity.
  - destruct b; intros [= <-]; reflexivity.
  - intros [= <-]. cbn [json_key].
    rewrite utf16_py_str, int_repr_digits. unfold number_text.
    now rewrite !app_nil_r_s.
  - intros [= <-]. rewrite utf16_py_str.
    destruct x as [| [] | neg | neg digits decpt]; try reflexivity;
      cbn [json_key];
      (destruct (float_number _) as [j|] eqn:Ej; [|discriminate]);
      now rewrite (floatstr_text _ _ Ej).
  - intros [= <-]. reflexivity.
Qed.

Lemma forallb_Forall {A} (f : A -> bool) l :
  forallb f l = true -> Forall (fun a => f a = true) l.
Proof.
  induction l as [|a l IH]; [constructor|]. cbn [forallb].
  intros [Ha Hl]%andb_true_iff. constructor; auto.
Qed.

Lemma Forall_mp {A} (P Q : A -> Prop) l :
  Forall (fun a => P a -> Q a) l -> Forall P l -> Forall Q l.
Proof. induction 1; inversion 1; subst; constructor; auto. Qed.

Lemma encode_list items :
  Json.encode (PyList items)
  = chunks ← mapM Json.encode items; Ok ("[" ++ join ", " chunks ++ "]").
Proof. reflexivity. Qed.

Lemma encode_dict items :
  Json.encode (PyDict items)
  = chunks ← mapM encode_member items; Ok ("{" ++ join ", " chunks ++ "}").
Proof. reflexivity. Qed.

(** The text the encoder writes for a value without a NaN or an
    infinity reads as the JSON value of that value. *)
Lemma encode_reads v :
  forall t, Json.encode v = Ok t -> finite_value v = true ->
  exists j, json_of v = Some j /\ reads_as t j.
Proof.
  induction v as [| b | z | x | s | items IH | items IH | ty] using PyValue_nested_ind;
    intros t Henc Hfin.
  - injection Henc as <-. exists JNull. split; [reflexivity|].
    intros [|fuel] rest Hfuel _; [simpl in Hfuel; lia | reflexivity].
  - exists (JBool b). split; [reflexivity|].
    destruct b; injection Henc as <-;
      (intros [|fuel] rest Hfuel _; [simpl in Hfuel; lia | reflexivity]).
  - injection Henc as <-. eexists. split; [reflexivity|].
    intros [|fuel] rest Hfuel Hrest; [lia|]. now apply parse_value_int.
  - injection Henc as <-. cbn [json_of].
    destruct (float_number x) as [j|] eqn:Ej; [|now destruct x].
    exists j. split; [reflexivity|].
    intros [|fuel] rest Hfuel Hrest; [lia|]. now apply parse_value_float.
  - injection Henc as <-. eexists. split; [reflexivity|].
    intros [|fuel] rest Hfuel Hrest; [lia|]. apply parse_value_string.
  - rewrite encode_list in Henc.
    destruct (mapM Json.encode items) as [chunks|e] eqn:E; [|discriminate].
    injection Henc as <-. cbn [finite_value] in Hfin.
    apply forallb_Forall in Hfin.
    assert (Forall (fun v => forall t, Json.encode v = Ok t ->
                      exists j, json_of v = Some j /\ reads_as t j) items)
      as IH'.
    { eapply Forall_mp; [|exact Hfin].
      eapply Forall_impl; [exact IH|]. intros v Hv Hf t Ht. now apply Hv. }
    destruct (mapM_transfer _ json_of reads_as items IH' chunks E)
      as (js & Hjs & Hall).
    exists (JArray js). split; [cbn; now rewrite Hjs|].
    now apply (reads_array " ").
  - rewrite encode_dict in Henc.
    destruct (mapM encode_member items) as [chunks|e] eqn:E; [|discriminate].
    injection Henc as <-. cbn [finite_value] in Hfin.
    apply forallb_Forall in Hfin.
    eapply (mapM_transfer _ (fun kv =>
              k ← json_key (fst kv); v ← json_of (snd kv); Some (k, v))
              member_reads) in E as (ms & Hms & Hall).
    + exists (JObject ms). split; [cbn; now rewrite Hms|].
      now apply (reads_object " ").
    + eapply Forall_mp; [|exact Hfin].
      eapply Forall_impl; [exact IH|]. intros [k v] Hv Hf chunk.
      unfold encode_member. cbn [fst snd] in *.
      destruct (Json.key_str k) as [ks|e'] eqn:Ek; [|discriminate].
      destruct (Json.encode v) as [tv|e'] eqn:Ev; [|discriminate].
      intros [= <-]. destruct (Hv tv eq_refl Hf) as (j & Hj & Hr).
      exists (utf16 ks, j). split.
      * rewrite (json_key_str _ _ Ek). cbn. now rewrite Hj.
      * exists ks, tv. auto.
  - discriminate.
Qed.

Lemma reads_as_loads t j : reads_as t j -> loads t = Some j.
Proof.
  intros H. unfold loads.
  pose proof (skip_ws_reads t j "" H) as Hs. rewrite app_nil_r_s in Hs.
  rewrite Hs.
  pose proof (H (S (String.length t)) "" ltac:(lia) eq_refl) as P.
  rewrite app_nil_r_s in P. rewrite P. reflexivity.
Qed.

End Values.

(** ** The reader has fuel enough *)

Section Fuel.
Import Rfc8259.

Lemma skip_ws_length s : String.length (skip_ws s) <= String.length s.
Proof.
  induction s as [|c s IH]; simpl; [lia|].
  destruct (is_ws c); simpl; lia.
Qed.

Lemma read_digits_length s d r :
  read_digits s = (d, r) ->
  String.length r <= String.length s /\
  (d <> Decimal.Nil -> String.length r < String.length s).
Proof.
  revert d r. induction s as [|c s IH]; intros d r; simpl.
  - intros [= <- <-]. split; [simpl; lia | congruence].
  - destruct (digit_cons c) as [k|].
    + destruct (read_digits s) as [d' r'] eqn:E. intros [= <- <-].
      destruct (IH _ _ eq_refl) as [Hle _]. split; intros; simpl; lia.
    + intros [= <- <-]. split; [simpl; lia | congruence].
Qed.

Lemma read_frac_length s o r :
  read_frac s = Some (o, r) -> String.length r <= String.length s.
Proof.
  unfold read_frac. destruct s as [|c s]; [intros [= <- <-]; lia|].
  destruct (Ascii.eqb_spec c ".") as [->|Hc].
  - destruct (read_digits s) as [d r'] eqn:E.
    apply read_digits_length in E as [Hle _].
    destruct d; intros [= <- <-]; simpl; lia.
  - destruct c as [[] [] [] [] [] [] [] []]; try congruence;
      intros [= <- <-]; lia.
Qed.

Lemma read_exp_length s o r :
  read_exp s = Some (o, r) -> String.length r <= String.length s.
Proof.
  assert (forall sign s o r,
            match read_digits s with
            | (Decimal.Nil, _) => None
            | (d, r') => Some (Some (sign d : Decimal.int), r')
            end = Some (o, r) -> String.length r <= String.length s) as Hd.
  { intros sign s' o' r'. destruct (read_digits s') as [d r''] eqn:E.
    apply read_digits_length in E as [Hle _].
    destruct d; intros [= <- <-]; lia. }
  unfold read_exp. destruct s as [|c s]; [intros [= <- <-]; lia|].
  destruct ((c =? "e")%char || (c =? "E")%char); [|intros [= <- <-]; lia].
  destruct s as [|c1 s1]; [discriminate|].
  destruct (Ascii.eqb_spec c1 "-") as [->|H1];
    [intros H%Hd; simpl in *; lia|].
  destruct (Ascii.eqb_spec c1 "+") as [->|H2];
    [intros H%Hd; simpl in *; lia|].
  destruct c1 as [[] [] [] [] [] [] [] []]; try congruence;
    intros H%Hd; simpl in *; lia.
Qed.

Lemma parse_unsigned_length minus s v r :
  parse_unsigned minus s = Some (v, r) -> String.length r < String.length s.
Proof.
  unfold parse_unsigned. destruct (read_digits s) as [d s2] eqn:E.
  apply read_digits_length in E as [_ Hlt].
  assert (d <> Decimal.Nil ->
          ('(frac, s3) ← read_frac s2; '(exp, s4) ← read_exp s3;
           Some (JNumber minus (N.of_uint d) frac exp, s4)) = Some (v, r) ->
          String.length r < String.length s) as Hk.
  { intros Hd H. specialize (Hlt Hd).
    destruct (read_frac s2) as [[fr s3]|] eqn:Ef; [|discriminate].
    apply read_frac_length in Ef. cbn in H.
    destruct (read_exp s3) as [[ex s4]|] eqn:Ee; [|discriminate].
    apply read_exp_length in Ee. cbn in H. injection H as _ <-. lia. }
  destruct d as [|d|d|d|d|d|d|d|d|d|d]; try discriminate;
    try (apply Hk; discriminate).
  destruct d; try discriminate; apply Hk; discriminate.
Qed.

Lemma parse_number_length s v r :
  parse_number s = Some (v, r) -> String.length r < String.length s.
Proof.
  unfold parse_number. destruct s as [|c s]; [discriminate|].
  destruct (Ascii.eqb_spec c "-") as [->|Hc].
  - intros H%parse_unsigned_length. simpl. lia.
  - destruct c as [[] [] [] [] [] [] [] []]; try congruence;
      apply parse_unsigned_length.
Qed.

Lemma cons_units_inv us0 X us r :
  cons_units us0 X = Some (us, r) -> exists us', X = Some (us', r).
Proof.
  destruct X as [[us' r']|]; [|discriminate]. intros [= _ <-]. eauto.
Qed.

Lemma parse_chars_length_aux n :
  forall s us r, String.length s <= n ->
    parse_chars s = Some (us, r) -> String.length r < String.length s.
Proof.
  induction n as [|n IH]; intros s us r Hn H;
    (destruct s as [|c s]; [discriminate|]); simpl in Hn; [lia|].
  cbn [parse_chars] in H. cbv zeta in H.
  destruct (N_of_ascii c =? 34)%N; [injection H as _ <-; simpl; lia|].
  destruct (N_of_ascii c =? 92)%N.
  - destruct s as [|e s1]; [discriminate|]. simpl in Hn.
    repeat match type of H with
           | (if ?b then _ else _) = _ =>
               destruct b;
               [apply cons_units_inv in H as [us' H];
                apply IH in H; [simpl; lia | lia] |]
           end.
    destruct (N_of_ascii e =? 117)%N; [|discriminate].
    destruct s1 as [|h3 [|h2 [|h1 [|h0 r2]]]]; try discriminate.
    destruct (hex4_val h3 h2 h1 h0) as [u|]; [|discriminate]. cbn in H.
    apply cons_units_inv in H as [us' H]. simpl in Hn.
    apply IH in H; [simpl; lia | lia].
  - destruct (N_of_ascii c <? 32)%N; [discriminate|].
    apply cons_units_inv in H as [us' H].
    apply IH in H; [simpl; lia | lia].
Qed.

Lemma parse_chars_length s us r :
  parse_chars s = Some (us, r) -> String.length r < String.length s.
Proof. apply (parse_chars_length_aux (String.length s)). lia. Qed.

Lemma strip_prefix_length p s r :
  strip_prefix p s = Some r -> String.length r <= String.length s.
Proof.
  revert s. induction p as [|a p IH]; intros s; simpl.
  - intros [= <-]. lia.
  - destruct s as [|b s]; [discriminate|].
    destruct (a =? b)%char; [|discriminate]. intros H%IH. simpl. lia.
Qed.

Lemma keyword_length w v0 s v r :
  keyword w v0 s = Some (v, r) -> String.length r <= String.length s.
Proof.
  unfold keyword. destruct (strip_prefix w s) as [r'|] eqn:E; [|discriminate].
  intros [= _ <-]. now apply strip_prefix_length in E.
Qed.

Lemma adequate_value_S f :
  adequate_elements f -> adequate_members f -> adequate_value (S f).
Proof.
  intros IHe IHm s v r H. unfold consumed.
  destruct s as [|c s]; [discriminate|]. cbn [parse_value] in H.
  destruct (starts_number c) eqn:Hn.
  { pose proof (parse_number_length _ _ _ H). split; [assumption|].
    intros [|f'] Hf; [lia|]. cbn [parse_value]. now rewrite Hn. }
  destruct (c =? dquote)%char eqn:Hq.
  { destruct (parse_chars s) as [[us r1]|] eqn:E; [|discriminate].
    injection H as <- <-. pose proof (parse_chars_length _ _ _ E).
    split; [simpl; lia|].
    intros [|f'] Hf; [lia|]. cbn [parse_value]. now rewrite Hn, Hq, E. }
  destruct (c =? "n")%char eqn:H1.
  { pose proof (keyword_length _ _ _ _ _ H). split; [simpl; lia|].
    intros [|f'] Hf; [lia|]. cbn [parse_value]. now rewrite Hn, Hq, H1. }
  destruct (c =? "t")%char eqn:H2.
  { pose proof (keyword_length _ _ _ _ _ H). split; [simpl; lia|].
    intros [|f'] Hf; [lia|]. cbn [parse_value]. now rewrite Hn, Hq, H1, H2. }
  destruct (c =? "f")%char eqn:H3.
  { pose proof (keyword_length _ _ _ _ _ H). split; [simpl; lia|].
    intros [|f'] Hf; [lia|]. cbn [parse_value].
    now rewrite Hn, Hq, H1, H2, H3. }
  pose proof (skip_ws_length s) as Hws.
  destruct (c =? "[")%char eqn:H4.
  { destruct (skip_ws s) as [|c1 r1] eqn:Ews; [discriminate|].
    simpl in Hws.
    destruct (c1 =? "]")%char eqn:H5.
    - injection H as <- <-. split; [simpl; lia|].
      intros [|f'] Hf; [lia|]. cbn [parse_value].
      now rewrite Hn, Hq, H1, H2, H3, H4, Ews, H5.
    - destruct (parse_elements f (String c1 r1)) as [[vs r2]|] eqn:E;
        [|discriminate].
      injection H as <- <-. destruct (IHe _ _ _ E) as [Hlt Hmono].
      unfold consumed in Hmono. simpl in Hlt, Hmono.
      split; [simpl; lia|].
      intros [|f'] Hf; [lia|]. cbn [parse_value].
      rewrite Hn, Hq, H1, H2, H3, H4, Ews, H5.
      simpl in Hf. now rewrite (Hmono f') by lia. }
  destruct (c =? "{")%char eqn:H6; [|discriminate].
  destruct (skip_ws s) as [|c1 r1] eqn:Ews; [discriminate|].
  simpl in Hws.
  destruct (c1 =? "}")%char eqn:H5.
  - injection H as <- <-. split; [simpl; lia|].
    intros [|f'] Hf; [lia|]. cbn [parse_value].
    now rewrite Hn, Hq, H1, H2, H3, H4, H6, Ews, H5.
  - destruct (parse_members f (String c1 r1)) as [[ms r2]|] eqn:E;
      [|discriminate].
    injection H as <- <-. destruct (IHm _ _ _ E) as [Hlt Hmono].
    unfold consumed in Hmono. simpl in Hlt, Hmono.
    split; [simpl; lia|].
    intros [|f'] Hf; [lia|]. cbn [parse_value].
    rewrite Hn, Hq, H1, H2, H3, H4, H6, Ews, H5.
    simpl in Hf. now rewrite (Hmono f') by lia.
Qed.

Lemma adequate_elements_S f :
  adequate_value f -> adequate_elements f -> adequate_elements (S f).
Proof.
  intros IHv IHe s vs r H. unfold consumed.
  rewrite parse_elements_S in H.
  destruct (parse_value f s) as [[v r0]|] eqn:Ev; [|discriminate].
  destruct (IHv _ _ _ Ev) as [Hlt Hmono]. unfold consumed in Hmono.
  cbn in H. pose proof (skip_ws_length r0) as Hws.
  destruct (skip_ws r0) as [|c r1] eqn:Ews; [discriminate|]. simpl in Hws.
  destruct (c =? ",")%char eqn:Hc.
  - pose proof (skip_ws_length r1) as Hws1.
    destruct (parse_elements f (skip_ws r1)) as [[vs' r2]|] eqn:Ee;
      [|discriminate].
    injection H as <- <-. destruct (IHe _ _ _ Ee) as [Hlt' Hmono'].
    unfold consumed in Hmono'. split; [lia|].
    intros [|f'] Hf; [lia|]. rewrite parse_elements_S.
    rewrite (Hmono f') by lia. cbn. rewrite Ews, Hc.
    now rewrite (Hmono' f') by lia.
  - destruct (c =? "]")%char eqn:Hc'; [|discriminate].
    injection H as <- <-. split; [lia|].
    intros [|f'] Hf; [lia|]. rewrite parse_elements_S.
    rewrite (Hmono f') by lia. cbn. now rewrite Ews, Hc, Hc'.
Qed.

Lemma adequate_members_S f :
  adequate_value f -> adequate_members f -> adequate_members (S f).
Proof.
  intros IHv IHm s ms r H. unfold consumed.
  destruct s as [|c s]; [discriminate|]. cbn [parse_members] in H.
  destruct (c =? dquote)%char eqn:Hq; [|discriminate].
  destruct (parse_chars s) as [[k r1]|] eqn:Ek; [|discriminate].
  pose proof (parse_chars_length _ _ _ Ek) as Hk. cbn in H.
  pose proof (skip_ws_length r1) as Hws1.
  destruct (skip_ws r1) as [|c2 r2] eqn:Ews1; [discriminate|]. simpl in Hws1.
  destruct (c2 =? ":")%char eqn:Hc2; [|discriminate].
  pose proof (skip_ws_length r2) as Hws2.
  destruct (parse_value f (skip_ws r2)) as [[v r3]|] eqn:Ev; [|discriminate].
  destruct (IHv _ _ _ Ev) as [Hlt Hmono]. unfold consumed in Hmono.
  cbn in H. pose proof (skip_ws_length r3) as Hws3.
  destruct (skip_ws r3) as [|c4 r4] eqn:Ews3; [discriminate|]. simpl in Hws3.
  destruct (c4 =? ",")%char eqn:Hc4.
  - pose proof (skip_ws_length r4) as Hws4.
    destruct (parse_members f (skip_ws r4)) as [[ms' r5]|] eqn:Em;
      [|discriminate].
    injection H as <- <-. destruct (IHm _ _ _ Em) as [Hlt' Hmono'].
    unfold consumed in Hmono'. split; [simpl; lia|].
    intros [|f'] Hf; [lia|]. simpl in Hf. cbn [parse_members].
    rewrite Hq, Ek. cbn. rewrite Ews1, Hc2.
    rewrite (Hmono f') by lia. cbn. rewrite Ews3, Hc4.
    now rewrite (Hmono' f') by lia.
  - destruct (c4 =? "}")%char eqn:Hc4'; [|discriminate].
    injection H as <- <-. split; [simpl; lia|].
    intros [|f'] Hf; [lia|]. simpl in Hf. cbn [parse_members].
    rewrite Hq, Ek. cbn. rewrite Ews1, Hc2.
    rewrite (Hmono f') by lia. cbn. now rewrite Ews3, Hc4, Hc4'.
Qed.

(** A parse that succeeds with some fuel succeeds with any fuel above the
    number of characters it consumes. *)
Lemma fuel_adequate f :
  adequate_value f /\ adequate_elements f /\ adequate_members f.
Proof.
  induction f as [|f (IHv & IHe & IHm)].
  - repeat split; discriminate.
  - split; [|split].
    + now apply adequate_value_S.
    + now apply adequate_elements_S.
    + now apply adequate_members_S.
Qed.

(** [loads] tries with enough fuel: a text that reads as a value with any
    fuel at all is read by [loads]. *)
Lemma loads_complete s f v r :
  parse_value f (skip_ws s) = Some (v, r) -> skip_ws r = "" ->
  loads s = Some v.
Proof.
  intros H Hr. destruct (fuel_adequate f) as (Hv & _ & _).
  destruct (Hv _ _ _ H) as [_ Hmono]. unfold loads, consumed in *.
  pose proof (skip_ws_length s).
  rewrite (Hmono (S (String.length s))) by lia. cbn. now rewrite Hr.
Qed.

(** So a text that [loads] rejects is read by no amount of fuel. *)
Lemma loads_none s :
  loads s = None ->
  forall f v r, parse_value f (skip_ws s) = Some (v, r) -> skip_ws r <> "".
Proof.
  intros Hnone f v r H Hr.
  rewrite (loads_complete s f v r H Hr) in Hnone. discriminate.
Qed.

End Fuel.

(** ** The encoder writes printable ASCII only *)

Section Printable.

Lemma printable_digits d :
  all_chars printable_ascii (NilEmpty.string_of_uint d) = true.
Proof. induction d; simpl; auto. Qed.

Lemma printable_int_repr z : all_chars printable_ascii (Json.int_repr z) = true.
Proof.
  rewrite int_repr_digits, all_chars_app, printable_digits.
  now destruct (z <? 0)%Z.
Qed.

Lemma printable_number_text minus i frac exp :
  all_chars printable_ascii (number_text minus i frac exp) = true.
Proof.
  unfold number_text. rewrite !all_chars_app, printable_digits.
  destruct minus, frac as [d|], exp as [[d'|d']|]; cbn [String.append all_chars];
    rewrite ?printable_digits; reflexivity.
Qed.

Lemma printable_floatstr x : all_chars printable_ascii (Json.floatstr x) = true.
Proof.
  destruct (float_number x) as [j|] eqn:Ej.
  - rewrite (floatstr_text x j Ej).
    destruct x as [| neg | neg | neg digits decpt]; try discriminate;
      injection Ej as <-; [apply printable_number_text|].
    unfold digits_number.
    repeat match goal with
           | |- context [if ?b then _ else _] => destruct b
           end; apply printable_number_text.
  - destruct x as [| [] | neg | neg digits decpt]; try discriminate;
      reflexivity.
Qed.

Lemma printable_hex_digit d :
  (d < 16)%N -> printable_ascii (Json.hex_digit d) = true.
Proof.
  intros Hd. unfold printable_ascii, Json.hex_digit, Json.printable.
  destruct (N.ltb_spec d 10); rewrite N_ascii_embedding by lia;
    apply andb_true_iff; split; apply N.leb_le; lia.
Qed.

Lemma printable_hex4 n : all_chars printable_ascii (Json.hex4 n) = true.
Proof.
  unfold Json.hex4. cbn [all_chars].
  change (N.land n 15) with (N.land (N.shiftr n 0) 15).
  now rewrite !printable_hex_digit by apply nibble_lt.
Qed.

Lemma printable_escape_char c :
  all_chars printable_ascii (Json.escape_char c) = true.
Proof.
  unfold Json.escape_char.
  repeat match goal with
         | |- context [(c =? ?k)%N] => destruct (c =? k)%N; [reflexivity|]
         end.
  destruct (Json.printable c) eqn:Hp.
  - unfold chr. cbn [all_chars]. unfold printable_ascii.
    pose proof Hp as Hp'. apply andb_true_iff in Hp' as [_ Hhi%N.leb_le].
    rewrite N_ascii_embedding by lia. unfold Json.printable in Hp.
    now rewrite Hp.
  - destruct (c <? 65536)%N; cbv zeta; rewrite !all_chars_app, !printable_hex4;
      reflexivity.
Qed.

Lemma printable_basestring s :
  all_chars printable_ascii (Json.encode_basestring_ascii s) = true.
Proof.
  unfold Json.encode_basestring_ascii. rewrite !all_chars_app.
  assert (all_chars printable_ascii (concat_str (map Json.escape_char s)) = true)
    as ->; [|reflexivity].
  induction s as [|c s IH]; [reflexivity|].
  cbn [map concat_str]. now rewrite all_chars_app, printable_escape_char.
Qed.

Lemma printable_join sep chunks :
  all_chars printable_ascii sep = true ->
  Forall (fun t => all_chars printable_ascii t = true) chunks ->
  all_chars printable_ascii (join sep chunks) = true.
Proof.
  intros Hsep. induction 1 as [|t ts Ht Hts IH]; [reflexivity|].
  destruct ts as [|t' ts]; [exact Ht|].
  rewrite join_cons, !all_chars_app, Ht, Hsep. exact IH.
Qed.

Lemma mapM_ok_Forall {A B} (f : A -> PyResult B) (P : B -> Prop) l :
  Forall (fun a => forall b, f a = Ok b -> P b) l ->
  forall bs, mapM f l = Ok bs -> Forall P bs.
Proof.
  induction 1 as [|a l Ha _ IH]; intros bs Hbs.
  - injection Hbs as <-. constructor.
  - apply mapM_ok_cons in Hbs as (b & bs' & Hb & Hbs' & ->).
    constructor; [exact (Ha b Hb) | exact (IH bs' Hbs')].
Qed.

(** No character of an encoded value is outside [' '..'~']: in
    particular none is a newline. *)
Lemma printable_encode v :
  forall t, Json.encode v = Ok t -> all_chars printable_ascii t = true.
Proof.
  induction v as [| b | z | x | s | items IH | items IH | ty] using PyValue_nested_ind;
    intros t Henc.
  - now injection Henc as <-.
  - destruct b; now injection Henc as <-.
  - injection Henc as <-. apply printable_int_repr.
  - injection Henc as <-. apply printable_floatstr.
  - injection Henc as <-. apply printable_basestring.
  - rewrite encode_list in Henc.
    destruct (mapM Json.encode items) as [chunks|e] eqn:E; [|discriminate].
    injection Henc as <-.
    apply (mapM_ok_Forall _ _ _ IH) in E.
    cbn [String.append all_chars]. rewrite all_chars_app.
    now rewrite printable_join.
  - rewrite encode_dict in Henc.
    destruct (mapM encode_member items) as [chunks|e] eqn:E; [|discriminate].
    injection Henc as <-.
    eapply (mapM_ok_Forall _ (fun t => all_chars printable_ascii t = true)) in E.
    + cbn [String.append all_chars]. rewrite all_chars_app.
      now rewrite printable_join.
    + eapply Forall_impl; [exact IH|]. intros [k v] Hv chunk.
      unfold encode_member. cbn [fst snd] in *.
      destruct (Json.key_str k) as [ks|e']; [|discriminate].
      destruct (Json.encode v) as [tv|e'] eqn:Ev; [|discriminate].
      intros [= <-].
      change (all_chars printable_ascii
                (Json.encode_basestring_ascii ks ++ ": " ++ tv) = true).
      rewrite !all_chars_app, printable_basestring.
      now rewrite (Hv tv eq_refl).
  - discriminate.
Qed.


End Printable.

(** ** The run of the exporter *)

Section Raises.

Lemma mapM_raise_inv {A B} (f : A -> PyResult B) l e :
  mapM f l = Raise e -> exists a, a ∈ l /\ f a = Raise e.
Proof.
  induction l as [|a l IH]; [discriminate|]. cbn.
  destruct (f a) as [b|e'] eqn:Ha; cbn.
  - destruct (mapM f l) as [bs|e'] eqn:Hl; cbn; [discriminate|].
    intros [= ->]. destruct (IH eq_refl) as (x & Hx & Hfx).
    exists x. split; [now constructor | exact Hfx].
  - intros [= ->]. exists a. split; [constructor | exact Ha].
Qed.

(** The encoder raises nothing but [TypeError]. *)
Lemma encode_raises v e :
  Json.encode v = Raise e -> exists what, e = TypeError what.
Proof.
  revert e.
  induction v as [| b | z | x | s | items IH | items IH | ty] using PyValue_nested_ind;
    intros e Henc; try discriminate.
  - destruct b; discriminate.
  - rewrite encode_list in Henc.
    destruct (mapM Json.encode items) as [chunks|e'] eqn:E; [discriminate|].
    injection Henc as ->.
    apply mapM_raise_inv in E as (v & Hin & Hv).
    rewrite Forall_forall in IH. exact (IH v Hin e Hv).
  - rewrite encode_dict in Henc.
    destruct (mapM encode_member items) as [chunks|e'] eqn:E; [discriminate|].
    injection Henc as ->.
    apply mapM_raise_inv in E as ([k v] & Hin & Hv).
    rewrite Forall_forall in IH. specialize (IH _ Hin). cbn [snd] in IH.
    unfold encode_member in Hv. cbn [fst snd] in Hv.
    destruct (Json.key_str k) as [ks|e'] eqn:Ek.
    + destruct (Json.encode v) as [tv|e'] eqn:Ev; [discriminate|].
      injection Hv as ->. exact (IH e eq_refl).
    + injection Hv as ->. destruct k as [| [] | | | | | |]; try discriminate;
        injection Ek as <-; eauto.
  - injection Henc as <-. eauto.
Qed.

End Raises.

Section Run.

Variable exec_module : string -> PyResult PyModule.
Variable py_eq : PyObject -> PyObject -> bool.

Lemma for_options_step module opts final o rest out :
  module !! "BUILD_OPTIONS" = Some (Sequence opts) ->
  last opts = Some final ->
  for_options py_eq module (o :: rest) out
  = match piece py_eq final o with
    | Ok p => for_options py_eq module rest (out ++ p)
    | Raise e => (out, Raise e)
    end.
Proof.
  intros Hm Hl. unfold piece, ending. cbn [for_options].
  unfold mbind, script_bind, lift, getattr, subscript_last, print.
  rewrite Hm, Hl.
  destruct (py_eq o final), (get_dict o) as [d|e];
    cbn -[json_dumps for_options]; try reflexivity;
    destruct (json_dumps d) as [t|e]; cbn -[for_options];
    rewrite ?app_nil_r_s; reflexivity.
Qed.

(** The loop writes the pieces of the elements, in order, up to the first
    element that cannot be serialized. *)
Lemma for_options_ok module opts final todo ps out :
  module !! "BUILD_OPTIONS" = Some (Sequence opts) ->
  last opts = Some final ->
  mapM (piece py_eq final) todo = Ok ps ->
  for_options py_eq module todo out = (out ++ concat_str ps, Ok tt).
Proof.
  intros Hm Hl. revert ps out.
  induction todo as [|o rest IH]; intros ps out Hps.
  - injection Hps as <-. cbn. now rewrite app_nil_r_s.
  - apply mapM_ok_cons in Hps as (p & ps' & Hp & Hps' & ->).
    rewrite (for_options_step _ _ _ _ _ _ Hm Hl), Hp, (IH _ _ Hps').
    cbn [concat_str]. now rewrite app_assoc_s.
Qed.

Lemma for_options_success module opts final todo out out' :
  module !! "BUILD_OPTIONS" = Some (Sequence opts) ->
  last opts = Some final ->
  for_options py_eq module todo out = (out', Ok tt) ->
  exists ps, mapM (piece py_eq final) todo = Ok ps.
Proof.
  intros Hm Hl. revert out.
  induction todo as [|o rest IH]; intros out H; [now exists []|].
  rewrite (for_options_step _ _ _ _ _ _ Hm Hl) in H.
  destruct (piece py_eq final o) as [p|e] eqn:Hp; [|discriminate].
  destruct (IH _ H) as (ps & Hps). exists (p :: ps).
  cbn. rewrite Hp. cbn. now rewrite Hps.
Qed.

Lemma main_loaded argv module :
  length argv = 2 ->
  exec_module (nth 1 argv "") = Ok module ->
  main exec_module py_eq argv ""
  = match getattr module "BUILD_OPTIONS" with
    | Ok v =>
        match iter v with
        | Ok options =>
            match for_options py_eq module options "[" with
            | (out, Ok _) => (out ++ "]" ++ NL, Ok tt)
            | (out, Raise e) => (out, Raise e)
            end
        | Raise e => ("[", Raise e)
        end
    | Raise e => ("[", Raise e)
    end.
Proof.
  intros Hargv Hload. unfold main. rewrite Hargv. cbn [Nat.eqb negb].
  unfold mbind, script_bind, lift, print. rewrite Hload.
  cbn [String.append].
  destruct (getattr module "BUILD_OPTIONS") as [v|e]; [|reflexivity].
  destruct (iter v) as [options|e]; [|reflexivity].
  destruct (for_options py_eq module options "[") as [out [[]|e]]; reflexivity.
Qed.

Lemma piece_ok final o p :
  piece py_eq final o = Ok p <->
  exists t, serializes o t /\ p = t ++ ending py_eq final o.
Proof.
  unfold piece, serializes, ending, get_dict. split.
  - destruct (obj_dict o) as [d|]; [|discriminate]. cbn -[json_dumps].
    destruct (json_dumps d) as [t|e] eqn:E; [|discriminate].
    intros [= <-]. eauto.
  - intros (t & (d & -> & Ht) & ->). cbn -[json_dumps]. now rewrite Ht.
Qed.

Lemma piece_raises final o e :
  piece py_eq final o = Raise e -> forall c, e <> SystemExit c.
Proof.
  unfold piece, get_dict.
  destruct (obj_dict o) as [d|]; cbn -[json_dumps];
    [|intros [= <-]; discriminate].
  destruct (json_dumps d) as [t|e'] eqn:E; [discriminate|].
  intros [= ->]. apply encode_raises in E as [w ->]. discriminate.
Qed.

Lemma for_options_raises module opts final todo out out' e :
  module !! "BUILD_OPTIONS" = Some (Sequence opts) ->
  last opts = Some final ->
  for_options py_eq module todo out = (out', Raise e) ->
  forall c, e <> SystemExit c.
Proof.
  intros Hm Hl. revert out.
  induction todo as [|o rest IH]; intros out H; [discriminate|].
  rewrite (for_options_step _ _ _ _ _ _ Hm Hl) in H.
  destruct (piece py_eq final o) as [p|e'] eqn:Hp.
  - exact (IH _ H).
  - injection H as _ ->. exact (piece_raises _ _ _ Hp).
Qed.

(** A run that reaches the loop with all records serializable. *)
Lemma run_pieces argv module opts ps :
  length argv = 2 ->
  exec_module (nth 1 argv "") = Ok module ->
  module !! "BUILD_OPTIONS" = Some (Sequence opts) ->
  pieces py_eq opts = Ok ps ->
  run exec_module py_eq argv
  = {| stdout := "[" ++ concat_str ps ++ "]" ++ NL; termination := Exited 0 |}.
Proof.
  intros Hargv Hload Hm Hps. unfold run.
  rewrite (main_loaded _ _ Hargv Hload). unfold getattr. rewrite Hm.
  cbn [iter]. unfold pieces in Hps.
  destruct (last opts) as [final|] eqn:Hl.
  - rewrite (for_options_ok _ _ _ _ _ _ Hm Hl Hps).
    now rewrite !app_assoc_s.
  - apply last_None in Hl as ->. injection Hps as <-. reflexivity.
Qed.

(** A run that exits with status 0 after loading a sequence has
    serialized every record. *)
Lemma run_success argv module opts :
  length argv = 2 ->
  exec_module (nth 1 argv "") = Ok module ->
  module !! "BUILD_OPTIONS" = Some (Sequence opts) ->
  termination (run exec_module py_eq argv) = Exited 0 ->
  exists ps, pieces py_eq opts = Ok ps.
Proof.
  intros Hargv Hload Hm. unfold run.
  rewrite (main_loaded _ _ Hargv Hload). unfold getattr. rewrite Hm.
  cbn [iter]. unfold pieces.
  destruct (last opts) as [final|] eqn:Hl; [|now exists []].
  destruct (for_options py_eq module opts "[") as [out [[]|e]] eqn:E.
  - intros _. exact (for_options_success _ _ _ _ _ _ Hm Hl E).
  - pose proof (for_options_raises _ _ _ _ _ _ _ Hm Hl E) as Hne.
    cbn. destruct e; try discriminate. now destruct (Hne code).
Qed.

Lemma finite_fields_value d :
  finite_value (PyDict (map (fun kv => (PyString (fst kv), snd kv)) d))
  = finite_fields d.
Proof.
  cbn [finite_value]. unfold finite_fields.
  induction d as [|kv d IH]; [reflexivity|]. cbn [map forallb snd].
  now rewrite IH.
Qed.

Lemma dumps_reads d t :
  json_dumps d = Ok t -> finite_fields d = true ->
  exists j, json_of_fields d = Some j /\ reads_as t j.
Proof.
  intros Ht Hfin. apply (encode_reads _ _ Ht).
  now rewrite finite_fields_value.
Qed.

Lemma serializes_reads o t :
  serializes o t -> finite_record o = true ->
  exists j, record_json o = Some j /\ reads_as t j.
Proof.
  intros (d & Hd & Ht). unfold record_json, finite_record. rewrite Hd.
  exact (dumps_reads _ _ Ht).
Qed.

Lemma serializes_all_read opts ts :
  Forall2 serializes opts ts ->
  Forall (fun o => finite_record o = true) opts ->
  exists js, Forall2 (fun o j => record_json o = Some j) opts js /\
             Forall2 reads_as ts js.
Proof.
  induction 1 as [|o t opts ts Hot _ IH]; intros Hfin.
  - exists []. split; constructor.
  - inversion Hfin as [|? ? Ho Hrest]; subst.
    destruct (IH Hrest) as (js & Hjs & Hr).
    destruct (serializes_reads _ _ Hot Ho) as (j & Hj & Hrj).
    exists (j :: js). split; constructor; assumption.
Qed.

Lemma reads_as_loads_ws t j w :
  reads_as t j -> all_chars Rfc8259.is_ws w = true ->
  Rfc8259.loads (t ++ w) = Some j.
Proof.
  intros H Hw. unfold Rfc8259.loads.
  rewrite (skip_ws_reads _ _ _ H).
  assert (at_delimiter w = true) as Hd.
  { destruct w as [|c w']; [reflexivity|]. simpl in *.
    apply andb_true_iff in Hw as [-> _]. reflexivity. }
  rewrite (H (S (String.length (t ++ w))) w) by (rewrite ?length_app_s; auto; lia).
  cbn. rewrite <- (app_nil_r_s w), (skip_ws_app w "" Hw). reflexivity.
Qed.

(** When only the last record compares equal to the last record, the
    pieces are the texts joined by the separator. *)
Lemma pieces_separated init final ts :
  Forall (fun o => py_eq o final = false) init ->
  py_eq final final = true ->
  Forall2 serializes (init ++ [final])%list ts ->
  exists ps, pieces py_eq (init ++ [final])%list = Ok ps /\
             concat_str ps = join (String "," NL) ts.
Proof.
  intros Hinit Hfinal. unfold pieces. rewrite last_snoc. revert ts.
  induction Hinit as [|o init Ho _ IH]; intros ts Hts.
  - inversion Hts as [|? t ? ts' Ht Hnil]; subst. inversion Hnil; subst.
    exists [t ++ ""]. split.
    + cbn [app mapM]. rewrite (proj2 (piece_ok final final (t ++ ""))).
      * reflexivity.
      * exists t. split; [exact Ht|]. unfold ending. now rewrite Hfinal.
    + cbn. now rewrite !app_nil_r_s.
  - inversion Hts as [|? t ? ts' Ht Hrest]; subst.
    destruct (IH _ Hrest) as (ps & Hps & Hcat).
    exists ((t ++ String "," NL) :: ps). split.
    + cbn [app mapM]. rewrite (proj2 (piece_ok final o (t ++ String "," NL))).
      * cbn. cbn in Hps. now rewrite Hps.
      * exists t. split; [exact Ht|]. unfold ending. now rewrite Ho.
    + cbn [concat_str]. rewrite Hcat, app_assoc_s.
      destruct ts' as [|t' ts']; [|reflexivity].
      inversion Hrest as [E|]. now destruct init.
Qed.

(** The run over such a sequence: the joined texts between brackets. *)
Lemma separated_run argv module init final ts :
  length argv = 2 ->
  exec_module (nth 1 argv "") = Ok module ->
  module !! "BUILD_OPTIONS" = Some (Sequence (init ++ [final])%list) ->
  Forall (fun o => py_eq o final = false) init ->
  py_eq final final = true ->
  Forall2 serializes (init ++ [final])%list ts ->
  run exec_module py_eq argv
  = {| stdout := "[" ++ join (String "," NL) ts ++ "]" ++ NL;
       termination := Exited 0 |}.
Proof.
  intros Hargv Hload Hm Hinit Hfinal Hts.
  destruct (pieces_separated _ _ _ Hinit Hfinal Hts) as (ps & Hps & Hcat).
  rewrite (run_pieces _ _ _ _ Hargv Hload Hm Hps). now rewrite Hcat.
Qed.

(** Such an output reads as the array of the records' objects, in
    order, when no field value holds a NaN or an infinity. *)
Lemma separated_run_loads argv module init final ts :
  length argv = 2 ->
  exec_module (nth 1 argv "") = Ok module ->
  module !! "BUILD_OPTIONS" = Some (Sequence (init ++ [final])%list) ->
  Forall (fun o => py_eq o final = false) init ->
  py_eq final final = true ->
  Forall2 serializes (init ++ [final])%list ts ->
  Forall (fun o => finite_record o = true) (init ++ [final])%list ->
  exists js,
    Rfc8259.loads (stdout (run exec_module py_eq argv))
      = Some (Rfc8259.JArray js) /\
    Forall2 (fun o j => record_json o = Some j) (init ++ [final])%list js.
Proof.
  intros Hargv Hload Hm Hinit Hfinal Hts Hfin.
  rewrite (separated_run _ _ _ _ _ Hargv Hload Hm Hinit Hfinal Hts).
  destruct (serializes_all_read _ _ Hts Hfin) as (js & Hjs & Hreads).
  exists js. split; [|exact Hjs]. cbn [stdout].
  pose proof (reads_array NL ts js eq_refl Hreads) as Harr.
  rewrite <- (app_assoc_s (join _ _) "]" NL), <- app_assoc_s.
  now apply reads_as_loads_ws.
Qed.


Lemma fields_members d j :
  json_of_fields d = Some j ->
  exists ms, j = Rfc8259.JObject ms /\
    Forall2 (fun kv m => fst m = utf16 (fst kv) /\
                         json_of (snd kv) = Some (snd m)) d ms.
Proof.
  unfold json_of_fields. cbn [json_of].
  match goal with
  | |- context [mapM ?g ?l] => destruct (mapM g l) as [ms|] eqn:E
  end; [|discriminate].
  intros [= <-]. exists ms. split; [reflexivity|].
  apply mapM_Some_1 in E. revert ms E.
  induction d as [|[k v] d IH]; intros ms E; inversion E as [|? m ? ms' Hm Hrest];
    subst; constructor.
  - cbn in Hm. destruct (json_of v) as [jv|] eqn:Ev; [|discriminate].
    injection Hm as <-. split; [reflexivity | exact Ev].
  - exact (IH _ Hrest).
Qed.

Lemma pieces_written final todo ps :
  mapM (piece py_eq final) todo = Ok ps ->
  Forall2 (fun o p => finite_record o = true -> record_written o p) todo ps.
Proof.
  revert ps. induction todo as [|o rest IH]; intros ps Hps.
  - injection Hps as <-. constructor.
  - apply mapM_ok_cons in Hps as (p & ps' & Hp & Hps' & ->).
    constructor; [|exact (IH _ Hps')]. intros Hfin.
    apply piece_ok in Hp as (t & (d & Hd & Ht) & ->).
    unfold finite_record in Hfin. rewrite Hd in Hfin.
    destruct (dumps_reads _ _ Ht Hfin) as (j & Hj & Hr).
    destruct (fields_members d j Hj) as (ms & -> & Hms).
    exists d, t, (ending py_eq final o), ms.
    repeat split; auto; [|now apply reads_as_loads].
    unfold ending. destruct (py_eq o final); auto.
Qed.


Lemma length_concat_pieces final todo ts ps :
  Forall2 serializes todo ts ->
  mapM (piece py_eq final) todo = Ok ps ->
  String.length (concat_str ps)
  = String.length (concat_str ts)
    + 2 * length (List.filter (fun o => negb (py_eq o final)) todo).
Proof.
  intros Hts. revert ps. induction Hts as [|o t todo ts Ht _ IH]; intros ps Hps.
  - now injection Hps as <-.
  - apply mapM_ok_cons in Hps as (p & ps' & Hp & Hps' & ->).
    apply piece_ok in Hp as (t' & (d' & Hd' & Ht') & ->).
    destruct Ht as (d & Hd & Ht). rewrite Hd in Hd'. injection Hd' as <-.
    rewrite Ht in Ht'. injection Ht' as <-.
    cbn [concat_str List.filter]. rewrite !length_app_s, (IH _ Hps').
    unfold ending. destruct (py_eq o final); cbn; lia.
Qed.

Lemma length_join sep ts :
  ts <> [] ->
  String.length (join sep ts)
  = String.length (concat_str ts) + String.length sep * (length ts - 1).
Proof.
  induction ts as [|t ts IH]; [congruence|]. intros _.
  destruct ts as [|t' ts].
  - cbn. rewrite app_nil_r_s. lia.
  - rewrite join_cons. cbn [concat_str]. rewrite !length_app_s.
    rewrite IH by discriminate. cbn [length concat_str].
    rewrite !length_app_s. lia.
Qed.

Lemma filter_all {A} (f : A -> bool) l :
  length (List.filter f l) = length l -> Forall (fun x => f x = true) l.
Proof.
  induction l as [|a l IH]; [constructor|]. cbn [List.filter].
  pose proof (List.filter_length_le f l) as Hle.
  destruct (f a) eqn:Ha; cbn [length]; intros H.
  - constructor; [exact Ha | apply IH; lia].
  - lia.
Qed.

(** The separator is where it belongs exactly when no record before the
    last one compares equal to the last one. *)
Lemma separated_iff argv module init final ts :
  length argv = 2 ->
  exec_module (nth 1 argv "") = Ok module ->
  module !! "BUILD_OPTIONS" = Some (Sequence (init ++ [final])%list) ->
  py_eq final final = true ->
  Forall2 serializes (init ++ [final])%list ts ->
  stdout (run exec_module py_eq argv)
    = "[" ++ join (String "," NL) ts ++ "]" ++ NL
  <-> Forall (fun o => py_eq o final = false) init.
Proof.
  intros Hargv Hload Hm Hfinal Hts. split.
  - intros Hout.
    assert (exists ps, pieces py_eq (init ++ [final])%list = Ok ps) as (ps & Hps).
    { unfold pieces. rewrite last_snoc. clear Hout Hm.
      induction Hts as [|o t todo ts' Ht _ (ps & IH)]; [now exists []|].
      exists ((t ++ ending py_eq final o) :: ps). cbn [mapM].
      rewrite (proj2 (piece_ok final o _)) by eauto. cbn. now rewrite IH. }
    rewrite (run_pieces _ _ _ _ Hargv Hload Hm Hps) in Hout. cbn [stdout] in Hout.
    apply (f_equal String.length) in Hout.
    rewrite !length_app_s in Hout. cbn [String.length] in Hout.
    unfold pieces in Hps. rewrite last_snoc in Hps.
    rewrite (length_concat_pieces _ _ _ _ Hts Hps) in Hout.
    assert (ts <> []) as Hne.
    { intros ->. inversion Hts as [E|]. now destruct init. }
    rewrite (length_join _ _ Hne) in Hout. cbn [String.length NL] in Hout.
    rewrite List.filter_app, length_app in Hout. cbn [List.filter] in Hout.
    rewrite Hfinal in Hout. cbn [negb length] in Hout.
    pose proof (Forall2_length _ _ _ Hts) as Hlen.
    rewrite length_app in Hlen. cbn [length] in Hlen.
    assert (Forall (fun o => negb (py_eq o final) = true) init) as Hall
      by (apply filter_all; lia).
    eapply Forall_impl; [exact Hall|]. intros o Ho. cbv beta in Ho.
    now destruct (py_eq o final).
  - intros Hinit.
    now rewrite (separated_run _ _ _ _ _ Hargv Hload Hm Hinit Hfinal Hts).
Qed.

(** The pieces depend on the records only through their fields and
    through what [==] answers against the last element. *)
Lemma pieces_congruence (py_eq' : PyObject -> PyObject -> bool)
    final final' todo todo' :
  Forall2 (fun o o' => obj_dict o = obj_dict o' /\
                       py_eq o final = py_eq' o' final') todo todo' ->
  mapM (piece py_eq final) todo = mapM (piece py_eq' final') todo'.
Proof.
  induction 1 as [|o o' todo todo' [Hd He] _ IH]; [reflexivity|].
  cbn [mapM]. rewrite IH. unfold piece, ending, get_dict.
  now rewrite Hd, He.
Qed.

Lemma for_options_lookup m1 m2 todo out :
  m1 !! "BUILD_OPTIONS" = m2 !! "BUILD_OPTIONS" ->
  for_options py_eq m1 todo out = for_options py_eq m2 todo out.
Proof.
  intros Hm. revert out. induction todo as [|o rest IH]; intros out;
    [reflexivity|].
  cbn [for_options]. unfold mbind, script_bind, lift, getattr.
  rewrite Hm. destruct (m2 !! "BUILD_OPTIONS") as [v|]; [|reflexivity].
  destruct (subscript_last v) as [final|e]; [|reflexivity].
  destruct (py_eq o final);
    (destruct (get_dict o) as [d|e]; [|reflexivity]);
    (destruct (json_dumps d) as [t|e]; [|reflexivity]);
    cbn -[for_options]; apply IH.
Qed.

End Run.

Example separated_run_loads_two :
  exists js,
    Rfc8259.loads (stdout (run (loader script_two) object_eq argv_ok))
      = Some (Rfc8259.JArray js) /\
    Forall2 (fun o j => record_json o = Some j) [enable_x; enable_y] js.
Proof.
  apply (separated_run_loads (loader script_two) object_eq argv_ok script_two
           [enable_x] enable_y [text_x; text_y]); try reflexivity.
  - repeat constructor.
  - repeat constructor; eexists; split; reflexivity.
  - repeat constructor.
Qed.

(** ** The claims *)

Section Claims.

(** C4: when the argument count is not exactly one ([len(sys.argv) != 2]),
    the process exits with status 1 and standard output stays empty. *)
Theorem bad_argument_count exec_module py_eq (argv : list string) :
  length argv <> 2 ->
  run exec_module py_eq argv = {| stdout := ""; termination := Exited 1 |}.
Proof.
  intros H. unfold run, main.
  destruct (Nat.eqb_spec (length argv) 2) as [E|_]; [contradiction | reflexivity].
Qed.

Lemma bad_argument_count_witness :
  run (loader script_two) object_eq ["featureLoader.py"]
    = {| stdout := ""; termination := Exited 1 |} /\
  run (loader script_two) object_eq ["featureLoader.py"; "a.py"; "b.py"]
    = {| stdout := ""; termination := Exited 1 |}.
Proof.
  split; apply bad_argument_count; cbn; lia.
Defined.

(** C5, as amended: for a script whose [BUILD_OPTIONS] is the empty
    sequence, standard output is exactly the two brackets followed by one
    newline, and the exit status is 0. *)
Theorem empty_sequence_output exec_module py_eq (argv : list string)
    (module : PyModule) :
  length argv = 2 ->
  exec_module (nth 1 argv "") = Ok module ->
  module !! "BUILD_OPTIONS" = Some (Sequence []) ->
  run exec_module py_eq argv
  = {| stdout := "[]" ++ NL; termination := Exited 0 |}.
Proof.
  intros Hargv Hload Hm.
  exact (run_pieces exec_module py_eq argv module [] [] Hargv Hload Hm eq_refl).
Qed.

Lemma empty_sequence_output_witness :
  run (loader script_empty) object_eq argv_ok
  = {| stdout := "[]" ++ NL; termination := Exited 0 |}.
Proof.
  apply (empty_sequence_output (loader script_empty) object_eq argv_ok script_empty);
    reflexivity.
Defined.

(** C5, as stated, fails: the output for the empty sequence is not the
    two characters alone. *)
Lemma empty_sequence_not_bare :
  stdout (run (loader script_empty) object_eq argv_ok) <> "[]".
Proof. vm_compute. discriminate. Qed.

(** C7: when the script loads but defines no [BUILD_OPTIONS], the run
    ends in an uncaught [AttributeError], so with a non-zero exit status,
    and no part of standard output is a JSON text. *)
Theorem missing_symbol exec_module py_eq (argv : list string)
    (module : PyModule) :
  length argv = 2 ->
  exec_module (nth 1 argv "") = Ok module ->
  module !! "BUILD_OPTIONS" = None ->
  let r := run exec_module py_eq argv in
  termination r = Uncaught (AttributeError "BUILD_OPTIONS") /\
  exit_code (termination r) <> 0%Z /\
  forall pre mid post : string,
    stdout r = pre ++ mid ++ post -> Rfc8259.loads mid = None.
Proof.
  intros Hargv Hload Hm r.
  assert (r = {| stdout := "[";
                 termination := Uncaught (AttributeError "BUILD_OPTIONS") |})
    as ->.
  { unfold r, run. rewrite (main_loaded _ _ _ _ Hargv Hload).
    unfold getattr. now rewrite Hm. }
  cbn [stdout termination exit_code]. repeat split; [discriminate|].
  intros pre mid post E.
  destruct pre as [|a pre]; cbn in E.
  - destruct mid as [|b mid]; [reflexivity|]. cbn in E.
    injection E as <- E. destruct mid; [reflexivity | discriminate].
  - injection E as <- E. destruct pre; [|discriminate].
    destruct mid; [reflexivity | discriminate].
Qed.

Lemma missing_symbol_witness :
  let r := run (loader script_no_symbol) object_eq argv_ok in
  termination r = Uncaught (AttributeError "BUILD_OPTIONS") /\
  exit_code (termination r) <> 0%Z /\
  forall pre mid post : string,
    stdout r = pre ++ mid ++ post -> Rfc8259.loads mid = None.
Proof.
  apply (missing_symbol (loader script_no_symbol) object_eq argv_ok
           script_no_symbol); reflexivity.
Defined.

(** C8: for two records [{name: ENABLE_X, default: true}] and
    [{name: ENABLE_Y, default: false}], in that order and different under
    [==], what is written to standard output is the first object, a comma
    and a newline, and the second object, between brackets, and then the
    newline that ends the text; it reads as the array of the two objects,
    and the exit status is 0. *)
Theorem two_options_scenario exec_module py_eq (argv : list string)
    (module : PyModule) (x y : PyObject) :
  length argv = 2 ->
  exec_module (nth 1 argv "") = Ok module ->
  module !! "BUILD_OPTIONS" = Some (Sequence [x; y]) ->
  obj_dict x = Some fields_x ->
  obj_dict y = Some fields_y ->
  py_eq x y = false ->
  py_eq y y = true ->
  let r := run exec_module py_eq argv in
  stdout r = "[" ++ text_x ++ "," ++ NL ++ text_y ++ "]" ++ NL /\
  Rfc8259.loads (stdout r) = Some (Rfc8259.JArray [json_x; json_y]) /\
  exit_code (termination r) = 0%Z.
Proof.
  intros Hargv Hload Hm Hx Hy Hxy Hyy r.
  assert (Forall2 serializes ([x] ++ [y])%list [text_x; text_y]) as Hts.
  { repeat constructor; [exists fields_x | exists fields_y]; split;
      auto; reflexivity. }
  unfold r.
  rewrite (separated_run exec_module py_eq argv module [x] y _ Hargv Hload Hm
             ltac:(repeat constructor; assumption) Hyy Hts).
  repeat split; vm_compute; reflexivity.
Qed.

Lemma two_options_scenario_witness :
  let r := run (loader script_two) object_eq argv_ok in
  stdout r = "[" ++ text_x ++ "," ++ NL ++ text_y ++ "]" ++ NL /\
  Rfc8259.loads (stdout r) = Some (Rfc8259.JArray [json_x; json_y]) /\
  exit_code (termination r) = 0%Z.
Proof.
  apply (two_options_scenario (loader script_two) object_eq argv_ok
           script_two enable_x enable_y); reflexivity.
Defined.

(** C9: when the script loads but [BUILD_OPTIONS] is missing or cannot be
    iterated, or its first element cannot be serialized, standard output
    at termination is the opening bracket alone, and the run ends in an
    uncaught exception. *)
Theorem failure_leaves_open_bracket exec_module py_eq (argv : list string)
    (module : PyModule) :
  length argv = 2 ->
  exec_module (nth 1 argv "") = Ok module ->
  fails_at_start module ->
  let r := run exec_module py_eq argv in
  stdout r = "[" /\ exists e, termination r = Uncaught e.
Proof.
  intros Hargv Hload Hfail r. unfold r, run.
  rewrite (main_loaded _ _ _ _ Hargv Hload).
  unfold fails_at_start in Hfail. unfold getattr.
  destruct (module !! "BUILD_OPTIONS") as [[[|o rest]|ty]|] eqn:Hm;
    [contradiction| |cbn; eauto..].
  cbn [iter].
  destruct (last (o :: rest)) as [final|] eqn:Hl;
    [|now apply last_None in Hl].
  rewrite (for_options_step _ _ _ _ _ _ _ Hm Hl).
  destruct (piece py_eq final o) as [p|e] eqn:Hp.
  - apply piece_ok in Hp as (t & Ht & _). now destruct (Hfail t).
  - pose proof (piece_raises _ _ _ _ Hp) as Hne. cbn [stdout termination].
    split; [reflexivity|].
    destruct e; eauto. now destruct (Hne code).
Qed.

Lemma failure_leaves_open_bracket_witness :
  (let r := run (loader script_no_symbol) object_eq argv_ok in
   stdout r = "[" /\ exists e, termination r = Uncaught e) /\
  (let r := run (loader script_bad_first) object_eq argv_ok in
   stdout r = "[" /\ exists e, termination r = Uncaught e).
Proof.
  split.
  - apply (failure_leaves_open_bracket (loader script_no_symbol) object_eq
             argv_ok script_no_symbol);
      [reflexivity | reflexivity | exact I].
  - apply (failure_leaves_open_bracket (loader script_bad_first) object_eq
             argv_ok script_bad_first);
      [reflexivity | reflexivity |].
    change (forall t, ~ serializes plain_int t).
    intros t (d & Hd & _). discriminate Hd.
Defined.

(** C10 fails on the code: take three records with the same fields and
    values, position by position, in two sequences, one that ends with
    its first record again and one that ends with a copy of it.  Both
    runs exit with status 0, and they write different texts. *)
Theorem same_fields_different_output :
  let r1 := run (loader script_aliased) object_eq argv_ok in
  let r2 := run (loader script_copied) object_eq argv_ok in
  Forall2 (fun a b => obj_dict a = obj_dict b)
    [enable_x; enable_y; enable_x] [enable_x; enable_y; enable_x'] /\
  termination r1 = Exited 0 /\ termination r2 = Exited 0 /\
  stdout r1 <> stdout r2.
Proof.
  repeat split.
  - repeat constructor.
  - vm_compute. discriminate.
Qed.




(** C2, as amended: in a successful run, the piece written for each
    record none of whose field values holds a NaN or an infinity starts
    with a JSON object whose members are exactly the fields of the
    record, in order: the key is the field name, the value is the JSON
    value of the field value, none is added and none is left out. *)
Theorem field_fidelity exec_module py_eq (argv : list string)
    (module : PyModule) (opts : list PyObject) :
  length argv = 2 ->
  exec_module (nth 1 argv "") = Ok module ->
  module !! "BUILD_OPTIONS" = Some (Sequence opts) ->
  termination (run exec_module py_eq argv) = Exited 0 ->
  exists ps,
    stdout (run exec_module py_eq argv) = "[" ++ concat_str ps ++ "]" ++ NL /\
    Forall2 (fun o p => finite_record o = true -> record_written o p) opts ps.
Proof.
  intros Hargv Hload Hm Hexit.
  destruct (run_success _ _ _ _ _ Hargv Hload Hm Hexit) as (ps & Hps).
  rewrite (run_pieces _ _ _ _ _ _ Hargv Hload Hm Hps). cbn [stdout].
  exists ps. split; [reflexivity|]. unfold pieces in Hps.
  destruct (last opts) as [final|] eqn:Hl.
  - exact (pieces_written _ _ _ _ Hps).
  - apply last_None in Hl as ->. injection Hps as <-. constructor.
Qed.

Lemma field_fidelity_witness :
  exists ps,
    stdout (run (loader script_rate) object_eq argv_ok)
      = "[" ++ concat_str ps ++ "]" ++ NL /\
    Forall2 record_written [enable_x; option_rate] ps.
Proof.
  destruct (field_fidelity (loader script_rate) object_eq argv_ok script_rate
              [enable_x; option_rate] eq_refl eq_refl eq_refl eq_refl)
    as (ps & Hout & Hall).
  exists ps. split; [exact Hout|].
  inversion Hall as [|? ? ? ? Hx Hrest]; subst.
  inversion Hrest as [|? ? ? ? Hr Hnil]; subst. inversion Hnil; subst.
  repeat constructor; [apply Hx | apply Hr]; reflexivity.
Defined.

(** C2, as stated, fails: a record whose field is [float('nan')] is
    serialized, the run exits with status 0, and what is written for the
    record is not a JSON object: neither its text nor the whole output
    is a JSON text. *)
Lemma nan_field_not_json :
  let r := run (loader script_nan) object_eq argv_ok in
  r = {| stdout := "[" ++ text_nan ++ "]" ++ NL; termination := Exited 0 |} /\
  serializes option_nan text_nan /\
  Rfc8259.loads text_nan = None /\
  Rfc8259.loads (stdout r) = None /\
  ~ (exists ps,
       stdout r = "[" ++ concat_str ps ++ "]" ++ NL /\
       Forall2 record_written [option_nan] ps).
Proof.
  repeat split.
  - exists fields_nan. split; reflexivity.
  - intros (ps & _ & Hall).
    inversion Hall as [|? p ? ? Hp _]; subst.
    destruct Hp as (d & t & e & ms & [= <-] & _ & _ & _ & Hms).
    inversion Hms as [|? ? ? ? _ Hrest]; subst.
    inversion Hrest as [|? ? ? ? [_ Hv] _]; subst.
    discriminate Hv.
Qed.

(** C1 fails on the code when an element before the last one compares
    equal to the last one: for [[x, y, x]] the run succeeds, but what it
    writes is not a JSON text, so not an array of three elements. *)
Theorem aliased_last_not_an_array :
  let r := run (loader script_aliased) object_eq argv_ok in
  termination r = Exited 0 /\ Rfc8259.loads (stdout r) = None.
Proof. split; reflexivity. Qed.

(** C3 fails on the code on the same input: the three records serialize,
    but the first one, which is not the last, is followed by the second
    one at once; the output is not the three texts joined by the
    separator. *)
Theorem aliased_last_drops_separator :
  let r := run (loader script_aliased) object_eq argv_ok in
  Forall2 serializes [enable_x; enable_y; enable_x] [text_x; text_y; text_x] /\
  r = {| stdout := "[" ++ text_x ++ text_y ++ "," ++ NL ++ text_x ++ "]" ++ NL;
         termination := Exited 0 |} /\
  stdout r <> "[" ++ join ("," ++ NL) [text_x; text_y; text_x] ++ "]" ++ NL.
Proof.
  repeat split.
  - repeat constructor; eexists; split; reflexivity.
  - vm_compute. discriminate.
Qed.

End Claims.

(** ** What the reader consumes *)

Section Closing.
Import Rfc8259.

Lemma suffix_refl s : suffix_of s s.
Proof. now exists "". Qed.

Lemma suffix_trans a b c : suffix_of a b -> suffix_of b c -> suffix_of a c.
Proof.
  intros (p & ->) (q & ->). exists (q ++ p). now rewrite app_assoc_s.
Qed.

Lemma suffix_cons c r s : suffix_of r s -> suffix_of r (String c s).
Proof. intros (p & ->). now exists (String c p). Qed.

Lemma suffix_tail c r s : suffix_of (String c r) s -> suffix_of r s.
Proof.
  intros (p & ->). exists (p ++ String c ""). now rewrite app_assoc_s.
Qed.

Lemma skip_ws_suffix s : suffix_of (skip_ws s) s.
Proof.
  induction s as [|c s IH]; [apply suffix_refl|]. simpl.
  destruct (is_ws c); [now apply suffix_cons | apply suffix_refl].
Qed.

Lemma read_digits_suffix s d r : read_digits s = (d, r) -> suffix_of r s.
Proof.
  revert d r. induction s as [|c s IH]; intros d r; simpl.
  - intros [= <- <-]. apply suffix_refl.
  - destruct (digit_cons c) as [k|].
    + destruct (read_digits s) as [d' r'] eqn:E. intros [= <- <-].
      apply suffix_cons. exact (IH _ _ eq_refl).
    + intros [= <- <-]. apply suffix_refl.
Qed.

Lemma read_frac_suffix s o r : read_frac s = Some (o, r) -> suffix_of r s.
Proof.
  unfold read_frac. destruct s as [|c s]; [intros [= <- <-]; apply suffix_refl|].
  destruct (Ascii.eqb_spec c ".") as [->|Hc].
  - destruct (read_digits s) as [d r'] eqn:E.
    apply read_digits_suffix in E.
    destruct d; intros [= <- <-]; now apply suffix_cons.
  - destruct c as [[] [] [] [] [] [] [] []]; try congruence;
      intros [= <- <-]; apply suffix_refl.
Qed.

Lemma read_exp_suffix s o r : read_exp s = Some (o, r) -> suffix_of r s.
Proof.
  assert (forall sign s o r,
            match read_digits s with
            | (Decimal.Nil, _) => None
            | (d, r') => Some (Some (sign d : Decimal.int), r')
            end = Some (o, r) -> suffix_of r s) as Hd.
  { intros sign s' o' r'. destruct (read_digits s') as [d r''] eqn:E.
    apply read_digits_suffix in E.
    destruct d; intros [= <- <-]; assumption. }
  unfold read_exp. destruct s as [|c s]; [intros [= <- <-]; apply suffix_refl|].
  destruct ((c =? "e")%char || (c =? "E")%char);
    [|intros [= <- <-]; apply suffix_refl].
  destruct s as [|c1 s1]; [discriminate|].
  destruct (Ascii.eqb_spec c1 "-") as [->|H1];
    [intros H%Hd; now do 2 apply suffix_cons|].
  destruct (Ascii.eqb_spec c1 "+") as [->|H2];
    [intros H%Hd; now do 2 apply suffix_cons|].
  destruct c1 as [[] [] [] [] [] [] [] []]; try congruence;
    intros H%Hd; now apply suffix_cons.
Qed.

Lemma parse_unsigned_suffix minus s v r :
  parse_unsigned minus s = Some (v, r) -> suffix_of r s.
Proof.
  unfold parse_unsigned. destruct (read_digits s) as [d s2] eqn:E.
  apply read_digits_suffix in E.
  assert (('(frac, s3) ← read_frac s2; '(exp, s4) ← read_exp s3;
           Some (JNumber minus (N.of_uint d) frac exp, s4)) = Some (v, r) ->
          suffix_of r s) as Hk.
  { intros H.
    destruct (read_frac s2) as [[fr s3]|] eqn:Ef; [|discriminate].
    apply read_frac_suffix in Ef. cbn in H.
    destruct (read_exp s3) as [[ex s4]|] eqn:Ee; [|discriminate].
    apply read_exp_suffix in Ee. cbn in H. injection H as _ <-.
    eauto using suffix_trans. }
  destruct d as [|d|d|d|d|d|d|d|d|d|d]; try discriminate; try exact Hk.
  destruct d; try discriminate; exact Hk.
Qed.

Lemma parse_number_suffix s v r :
  parse_number s = Some (v, r) -> suffix_of r s.
Proof.
  unfold parse_number. destruct s as [|c s]; [discriminate|].
  destruct (Ascii.eqb_spec c "-") as [->|Hc].
  - intros H%parse_unsigned_suffix. now apply suffix_cons.
  - destruct c as [[] [] [] [] [] [] [] []]; try congruence;
      apply parse_unsigned_suffix.
Qed.

Lemma parse_chars_suffix_aux n :
  forall s us r, String.length s <= n ->
    parse_chars s = Some (us, r) -> suffix_of r s.
Proof.
  induction n as [|n IH]; intros s us r Hn H;
    (destruct s as [|c s]; [discriminate|]); simpl in Hn; [lia|].
  cbn [parse_chars] in H. cbv zeta in H.
  destruct (N_of_ascii c =? 34)%N;
    [injection H as _ <-; apply suffix_cons, suffix_refl|].
  destruct (N_of_ascii c =? 92)%N.
  - destruct s as [|e s1]; [discriminate|]. simpl in Hn.
    repeat match type of H with
           | (if ?b then _ else _) = _ =>
               destruct b;
               [apply cons_units_inv in H as [us' H];
                apply IH in H; [now do 2 apply suffix_cons | lia] |]
           end.
    destruct (N_of_ascii e =? 117)%N; [|discriminate].
    destruct s1 as [|h3 [|h2 [|h1 [|h0 r2]]]]; try discriminate.
    destruct (hex4_val h3 h2 h1 h0) as [u|]; [|discriminate]. cbn in H.
    apply cons_units_inv in H as [us' H]. simpl in Hn.
    apply IH in H; [now do 6 apply suffix_cons | lia].
  - destruct (N_of_ascii c <? 32)%N; [discriminate|].
    apply cons_units_inv in H as [us' H].
    apply IH in H; [now apply suffix_cons | lia].
Qed.

Lemma parse_chars_suffix s us r :
  parse_chars s = Some (us, r) -> suffix_of r s.
Proof. apply (parse_chars_suffix_aux (String.length s)). lia. Qed.

Lemma strip_prefix_suffix p s r : strip_prefix p s = Some r -> suffix_of r s.
Proof.
  revert s. induction p as [|a p IH]; intros s; simpl.
  - intros [= <-]. apply suffix_refl.
  - destruct s as [|b s]; [discriminate|].
    destruct (a =? b)%char; [|discriminate]. intros H%IH. now apply suffix_cons.
Qed.

Lemma keyword_suffix w v0 s v r :
  keyword w v0 s = Some (v, r) -> suffix_of r s.
Proof.
  unfold keyword. destruct (strip_prefix w s) as [r'|] eqn:E; [|discriminate].
  intros [= _ <-]. now apply strip_prefix_suffix in E.
Qed.

Lemma closes_value_S f :
  closes_elements f -> closes_members f -> closes_value (S f).
Proof.
  intros IHe IHm s v r H.
  destruct s as [|c s]; [discriminate|]. cbn [parse_value] in H.
  destruct (starts_number c) eqn:Hn.
  { split; [exact (parse_number_suffix _ _ _ H)|].
    intros x [= -> _]. discriminate Hn. }
  destruct (c =? dquote)%char eqn:Hq.
  { destruct (parse_chars s) as [[us r1]|] eqn:E; [|discriminate].
    injection H as <- <-. split; [apply suffix_cons, (parse_chars_suffix _ _ _ E)|].
    intros x [= -> _]. discriminate Hq. }
  destruct (c =? "n")%char eqn:H1.
  { split; [apply suffix_cons, (keyword_suffix _ _ _ _ _ H)|].
    intros x [= -> _]. discriminate H1. }
  destruct (c =? "t")%char eqn:H2.
  { split; [apply suffix_cons, (keyword_suffix _ _ _ _ _ H)|].
    intros x [= -> _]. discriminate H2. }
  destruct (c =? "f")%char eqn:H3.
  { split; [apply suffix_cons, (keyword_suffix _ _ _ _ _ H)|].
    intros x [= -> _]. discriminate H3. }
  pose proof (skip_ws_suffix s) as Hws.
  destruct (c =? "[")%char eqn:H4.
  { destruct (skip_ws s) as [|c1 r1] eqn:Ews; [discriminate|].
    assert (suffix_of (String "]" r) (String c s)) as Hclose.
    { apply suffix_cons. destruct (Ascii.eqb_spec c1 "]") as [->|Hc1].
      - injection H as <- <-. exact Hws.
      - destruct (parse_elements f (String c1 r1)) as [[vs r2]|] eqn:E;
          [|discriminate].
        injection H as <- <-. exact (suffix_trans _ _ _ (IHe _ _ _ E) Hws). }
    split; [exact (suffix_tail _ _ _ Hclose) | intros; exact Hclose]. }
  destruct (c =? "{")%char eqn:H6; [|discriminate].
  split; [|intros x [= -> _]; discriminate H4].
  destruct (skip_ws s) as [|c1 r1] eqn:Ews; [discriminate|].
  apply suffix_cons. destruct (c1 =? "}")%char.
  - injection H as <- <-. exact (suffix_tail _ _ _ Hws).
  - destruct (parse_members f (String c1 r1)) as [[ms r2]|] eqn:E;
      [|discriminate].
    injection H as <- <-. exact (suffix_trans _ _ _ (IHm _ _ _ E) Hws).
Qed.

Lemma closes_elements_S f :
  closes_value f -> closes_elements f -> closes_elements (S f).
Proof.
  intros IHv IHe s vs r H. rewrite parse_elements_S in H.
  destruct (parse_value f s) as [[v r0]|] eqn:Ev; [|discriminate].
  destruct (IHv _ _ _ Ev) as [Hs _]. cbn in H.
  pose proof (skip_ws_suffix r0) as Hws.
  destruct (skip_ws r0) as [|c r1] eqn:Ews; [discriminate|].
  destruct (c =? ",")%char.
  - destruct (parse_elements f (skip_ws r1)) as [[vs' r2]|] eqn:Ee;
      [|discriminate].
    injection H as <- <-.
    eapply suffix_trans; [exact (IHe _ _ _ Ee)|].
    eapply suffix_trans; [apply skip_ws_suffix|].
    eapply suffix_trans; [exact (suffix_tail _ _ _ Hws) | exact Hs].
  - destruct (Ascii.eqb_spec c "]") as [->|]; [|discriminate].
    injection H as <- <-. exact (suffix_trans _ _ _ Hws Hs).
Qed.

Lemma closes_members_S f :
  closes_value f -> closes_members f -> closes_members (S f).
Proof.
  intros IHv IHm s ms r H.
  destruct s as [|c s]; [discriminate|]. cbn [parse_members] in H.
  destruct (c =? dquote)%char; [|discriminate].
  destruct (parse_chars s) as [[k r1]|] eqn:Ek; [|discriminate].
  pose proof (parse_chars_suffix _ _ _ Ek) as Hk. cbn in H.
  pose proof (skip_ws_suffix r1) as Hws1.
  destruct (skip_ws r1) as [|c2 r2] eqn:Ews1; [discriminate|].
  destruct (c2 =? ":")%char; [|discriminate].
  destruct (parse_value f (skip_ws r2)) as [[v r3]|] eqn:Ev; [|discriminate].
  destruct (IHv _ _ _ Ev) as [Hv _]. cbn in H.
  pose proof (skip_ws_suffix r3) as Hws3.
  destruct (skip_ws r3) as [|c4 r4] eqn:Ews3; [discriminate|].
  assert (suffix_of r4 (String c s)) as Hr4.
  { apply suffix_cons.
    eapply suffix_trans; [exact (suffix_tail _ _ _ Hws3)|].
    eapply suffix_trans; [exact Hv|].
    eapply suffix_trans; [apply skip_ws_suffix|].
    eapply suffix_trans; [exact (suffix_tail _ _ _ Hws1) | exact Hk]. }
  destruct (c4 =? ",")%char.
  - destruct (parse_members f (skip_ws r4)) as [[ms' r5]|] eqn:Em;
      [|discriminate].
    injection H as <- <-.
    eapply suffix_trans; [exact (IHm _ _ _ Em)|].
    eapply suffix_trans; [apply skip_ws_suffix | exact Hr4].
  - destruct (c4 =? "}")%char; [|discriminate].
    injection H as <- <-. exact Hr4.
Qed.

Lemma closes f : closes_value f /\ closes_elements f /\ closes_members f.
Proof.
  induction f as [|f (IHv & IHe & IHm)].
  - repeat split; discriminate.
  - split; [|split].
    + now apply closes_value_S.
    + now apply closes_elements_S.
    + now apply closes_members_S.
Qed.

Lemma last_visible_app a b :
  last_visible (a ++ b)
  = match last_visible b with
    | Some x => Some x
    | None => last_visible a
    end.
Proof.
  induction a as [|c a IH]; cbn [String.append last_visible].
  - now destruct (last_visible b).
  - rewrite IH. now destruct (last_visible b).
Qed.

Lemma last_visible_ws r : skip_ws r = "" -> last_visible r = None.
Proof.
  induction r as [|c r IH]; [reflexivity|]. cbn [skip_ws last_visible].
  destruct (is_ws c); [|discriminate]. intros H. now rewrite (IH H).
Qed.

(** A JSON text that opens with a bracket closes with one. *)
Lemma loads_array_closes s v x :
  loads s = Some v -> skip_ws s = String "[" x ->
  last_visible s = Some "]"%char.
Proof.
  unfold loads. intros H Hs.
  destruct (parse_value (S (String.length s)) (skip_ws s)) as [[v' r]|] eqn:E;
    [|discriminate].
  cbn in H. destruct (skip_ws r) eqn:Er; [|discriminate].
  destruct (closes (S (String.length s))) as (Hv & _ & _).
  destruct (Hv _ _ _ E) as [_ Hc]. destruct (Hc x Hs) as (pre & Hpre).
  destruct (skip_ws_suffix s) as (w & ->). rewrite Hpre.
  rewrite !last_visible_app. cbn [last_visible].
  now rewrite (last_visible_ws r Er).
Qed.

End Closing.

(** ** Further properties of the run *)

Section Emit.

Variable exec_module : string -> PyResult PyModule.
Variable py_eq : PyObject -> PyObject -> bool.

Lemma for_options_emit module opts final todo out :
  module !! "BUILD_OPTIONS" = Some (Sequence opts) ->
  last opts = Some final ->
  for_options py_eq module todo out = emit (map (piece py_eq final) todo) out.
Proof.
  intros Hm Hl. revert out. induction todo as [|o rest IH]; intros out;
    [reflexivity|].
  rewrite (for_options_step py_eq _ _ _ _ _ _ Hm Hl). cbn [map emit].
  destruct (piece py_eq final o); [apply IH | reflexivity].
Qed.

(** A run that has loaded a sequence is the fold over its iterations,
    between the brackets. *)
Lemma run_emit argv module opts :
  length argv = 2 ->
  exec_module (nth 1 argv "") = Ok module ->
  module !! "BUILD_OPTIONS" = Some (Sequence opts) ->
  run exec_module py_eq argv
  = match emit (outcomes py_eq opts) "[" with
    | (out, Ok _) => {| stdout := out ++ "]" ++ NL; termination := Exited 0 |}
    | (out, Raise (SystemExit c)) => {| stdout := out; termination := Exited c |}
    | (out, Raise e) => {| stdout := out; termination := Uncaught e |}
    end.
Proof.
  intros Hargv Hload Hm. unfold run, outcomes.
  rewrite (main_loaded _ _ _ _ Hargv Hload). unfold getattr. rewrite Hm.
  cbn [iter]. destruct (last opts) as [final|] eqn:Hl.
  - rewrite (for_options_emit _ _ _ _ _ Hm Hl).
    destruct (emit _ "[") as [out [[]|[]]]; reflexivity.
  - apply last_None in Hl as ->. reflexivity.
Qed.

Lemma emit_ok ps out :
  emit (map Ok ps) out = (out ++ concat_str ps, Ok tt).
Proof.
  revert out. induction ps as [|p ps IH]; intros out; cbn [map emit concat_str].
  - now rewrite app_nil_r_s.
  - now rewrite IH, app_assoc_s.
Qed.

Lemma emit_app ps qs out :
  emit (map Ok ps ++ qs)%list out = emit qs (out ++ concat_str ps).
Proof.
  revert out. induction ps as [|p ps IH]; intros out; cbn [map app emit concat_str].
  - now rewrite app_nil_r_s.
  - now rewrite IH, app_assoc_s.
Qed.

(** Whatever the iterations yield, the output is extended, by pieces only. *)
Lemma emit_written ps out :
  exists done, Forall (fun p => In (Ok p) ps) done /\
               fst (emit ps out) = out ++ concat_str done.
Proof.
  revert out. induction ps as [|[p|e] ps IH]; intros out; cbn [emit fst].
  - exists []. split; [constructor | now rewrite app_nil_r_s].
  - destruct (IH (out ++ p)) as (done & Hin & E). exists (p :: done). split.
    + constructor; [now left|].
      eapply Forall_impl; [exact Hin|]. intros q Hq. now right.
    + rewrite E. cbn [concat_str]. now rewrite app_assoc_s.
  - exists []. split; [constructor | now rewrite app_nil_r_s].
Qed.

Lemma run_not_loaded argv e :
  length argv = 2 ->
  exec_module (nth 1 argv "") = Raise e ->
  run exec_module py_eq argv
  = {| stdout := "";
       termination := match e with
                      | SystemExit c => Exited c
                      | _ => Uncaught e
                      end |}.
Proof.
  intros Hargv Hload. unfold run, main. rewrite Hargv. cbn [Nat.eqb negb].
  unfold mbind, script_bind, lift. rewrite Hload. reflexivity.
Qed.

Lemma run_starts argv module :
  length argv = 2 ->
  exec_module (nth 1 argv "") = Ok module ->
  exists w, stdout (run exec_module py_eq argv) = "[" ++ w.
Proof.
  intros Hargv Hload.
  destruct (module !! "BUILD_OPTIONS") as [[opts|ty]|] eqn:Hm.
  - rewrite (run_emit _ _ _ Hargv Hload Hm).
    destruct (emit_written (outcomes py_eq opts) "[") as (done & _ & E).
    destruct (emit (outcomes py_eq opts) "[") as [out [[]|e]]; cbn [fst] in E;
      subst out.
    + eexists. cbn [stdout]. now rewrite app_assoc_s.
    + eexists. destruct e; reflexivity.
  - exists "". unfold run. rewrite (main_loaded _ _ _ _ Hargv Hload).
    unfold getattr. now rewrite Hm.
  - exists "". unfold run. rewrite (main_loaded _ _ _ _ Hargv Hload).
    unfold getattr. now rewrite Hm.
Qed.

(** The iterations of a run all succeed exactly when every record can be
    serialized. *)
Lemma outcomes_ok opts :
  (exists ps, outcomes py_eq opts = map Ok ps) <->
  Forall (fun o => exists t, serializes o t) opts.
Proof.
  unfold outcomes. destruct (last opts) as [final|] eqn:Hl.
  - clear Hl. induction opts as [|o opts IH]; cbn [map].
    + split; [constructor | now exists []].
    + split.
      * intros ([|p ps] & E); [discriminate|]. injection E as Hp E.
        apply piece_ok in Hp as (t & Ht & _).
        constructor; [eauto | apply IH; eauto].
      * intros H. inversion H as [|? ? (t & Ht) Hrest]; subst.
        apply IH in Hrest as (ps & E).
        exists ((t ++ ending py_eq final o) :: ps). cbn [map]. rewrite E.
        now rewrite (proj2 (piece_ok py_eq final o _)) by eauto.
  - apply last_None in Hl as ->. split; [constructor | now exists []].
Qed.

Lemma emit_raise_found ps out out' e :
  emit ps out = (out', Raise e) -> In (Raise e) ps.
Proof.
  revert out. induction ps as [|[p|e'] ps IH]; intros out; cbn [emit].
  - discriminate.
  - intros H. right. exact (IH _ H).
  - intros [= _ ->]. now left.
Qed.

Lemma outcomes_raise opts e :
  In (Raise e) (outcomes py_eq opts) -> forall c, e <> SystemExit c.
Proof.
  unfold outcomes. destruct (last opts) as [final|]; [|intros []].
  intros H. apply in_map_iff in H as (o & Ho & _).
  exact (piece_raises py_eq _ _ _ Ho).
Qed.

Lemma emit_ok_inv ps out out' :
  emit ps out = (out', Ok tt) -> exists qs, ps = map Ok qs.
Proof.
  revert out. induction ps as [|[p|e] ps IH]; intros out; cbn [emit].
  - now exists [].
  - intros H. destruct (IH _ H) as (qs & ->). now exists (p :: qs).
  - discriminate.
Qed.

Lemma pieces_of_serialized final good ts :
  Forall2 serializes good ts ->
  map (piece py_eq final) good
  = map Ok (zip_with (fun o t => t ++ ending py_eq final o) good ts).
Proof.
  induction 1 as [|o t good ts Ht _ IH]; [reflexivity|].
  cbn [map zip_with]. rewrite IH.
  now rewrite (proj2 (piece_ok py_eq final o _)) by eauto.
Qed.

Lemma all_chars_impl (p q : ascii -> bool) s :
  (forall a, p a = true -> q a = true) ->
  all_chars p s = true -> all_chars q s = true.
Proof.
  intros Hpq. induction s as [|a s IH]; [reflexivity|]. cbn [all_chars].
  intros [Ha Hs]%andb_true_iff. now rewrite (Hpq a Ha), IH.
Qed.

Lemma writable_piece final o p :
  piece py_eq final o = Ok p -> all_chars writable p = true.
Proof.
  intros (t & (d & _ & Ht) & ->)%piece_ok. rewrite all_chars_app.
  apply printable_encode in Ht.
  rewrite (all_chars_impl printable_ascii writable t); [|
    intros a Ha; unfold writable; now rewrite Ha | exact Ht].
  unfold ending. now destruct (py_eq o final).
Qed.

Lemma writable_concat done :
  Forall (fun p => all_chars writable p = true) done ->
  all_chars writable (concat_str done) = true.
Proof.
  induction 1 as [|p done Hp _ IH]; [reflexivity|].
  cbn [concat_str]. now rewrite all_chars_app, Hp, IH.
Qed.

End Emit.

Section Extras.

(** X1: standard output is empty exactly when the run stops before the
    script is loaded, because of the argument count or because loading
    raises; a run that has loaded the script has written the opening
    bracket first, whatever happens next. *)
Theorem output_empty_iff exec_module py_eq (argv : list string) :
  (stdout (run exec_module py_eq argv) = "" <->
   length argv <> 2 \/ exists e, exec_module (nth 1 argv "") = Raise e) /\
  (forall module,
     length argv = 2 -> exec_module (nth 1 argv "") = Ok module ->
     exists w, stdout (run exec_module py_eq argv) = "[" ++ w).
Proof.
  split; [|intros module; apply run_starts].
  destruct (Nat.eq_dec (length argv) 2) as [Hargv|Hargv].
  - destruct (exec_module (nth 1 argv "")) as [module|e] eqn:Hload.
    + destruct (run_starts exec_module py_eq _ _ Hargv Hload) as (w & ->).
      split; [discriminate|]. intros [H|(e & He)]; [contradiction | discriminate].
    + rewrite (run_not_loaded exec_module py_eq _ _ Hargv Hload). cbn [stdout].
      split; [eauto | reflexivity].
  - split; [now left|]. intros _. unfold run, main.
    destruct (Nat.eqb_spec (length argv) 2); [contradiction | reflexivity].
Qed.

(** X2: once a sequence is loaded, the run exits with status 0 exactly
    when every record has a [__dict__] that [json.dumps] accepts; in every
    other case it ends in an uncaught exception, with status 1. *)
Theorem exit_zero_iff_serializable exec_module py_eq (argv : list string)
    (module : PyModule) (opts : list PyObject) :
  length argv = 2 ->
  exec_module (nth 1 argv "") = Ok module ->
  module !! "BUILD_OPTIONS" = Some (Sequence opts) ->
  let r := run exec_module py_eq argv in
  (termination r = Exited 0 <->
   Forall (fun o => exists t, serializes o t) opts) /\
  (termination r <> Exited 0 ->
   exists e, termination r = Uncaught e /\ exit_code (termination r) = 1%Z).
Proof.
  intros Hargv Hload Hm r. unfold r.
  rewrite (run_emit _ _ _ _ _ Hargv Hload Hm).
  destruct (emit (outcomes py_eq opts) "[") as [out [[]|e]] eqn:E.
  - cbn [termination]. split; [|congruence]. split; [|reflexivity].
    intros _. apply (proj1 (outcomes_ok py_eq opts)).
    exact (emit_ok_inv _ _ _ E).
  - pose proof (outcomes_raise py_eq _ _ (emit_raise_found _ _ _ _ E)) as Hne.
    assert (forall ps, outcomes py_eq opts <> map Ok ps) as Hno.
    { intros ps Hps. rewrite Hps, emit_ok in E. discriminate. }
    destruct e; try (now destruct (Hne code)); cbn [termination];
      (split; [split; [discriminate|];
                 intros (ps & Hps)%(proj2 (outcomes_ok py_eq opts));
                 now destruct (Hno ps)
              | intros _; eexists; split; reflexivity]).
Qed.

Lemma exit_zero_iff_serializable_witness :
  let r := run (loader script_bad_middle) object_eq argv_ok in
  (termination r = Exited 0 <->
   Forall (fun o => exists t, serializes o t) [enable_x; plain_int; enable_y]) /\
  (termination r <> Exited 0 ->
   exists e, termination r = Uncaught e /\ exit_code (termination r) = 1%Z).
Proof.
  apply (exit_zero_iff_serializable (loader script_bad_middle) object_eq
           argv_ok script_bad_middle); reflexivity.
Defined.

(** X3: when the first records serialize and the next one does not, what
    was written for the first ones stays on standard output: the opening
    bracket and their pieces, with no closing bracket, and the run ends in
    an uncaught exception.  Nothing is written for the records after the
    failing one. *)
Theorem failure_keeps_partial_output exec_module py_eq (argv : list string)
    (module : PyModule) (good rest : list PyObject) (bad final : PyObject)
    (ts : list string) :
  length argv = 2 ->
  exec_module (nth 1 argv "") = Ok module ->
  module !! "BUILD_OPTIONS" = Some (Sequence (good ++ bad :: rest)%list) ->
  last (good ++ bad :: rest)%list = Some final ->
  Forall2 serializes good ts ->
  (forall t, ~ serializes bad t) ->
  let r := run exec_module py_eq argv in
  stdout r
    = "[" ++ concat_str (zip_with (fun o t => t ++ ending py_eq final o) good ts)
  /\ exists e, termination r = Uncaught e.
Proof.
  intros Hargv Hload Hm Hl Hts Hbad r. unfold r.
  rewrite (run_emit _ _ _ _ _ Hargv Hload Hm). unfold outcomes. rewrite Hl.
  rewrite map_app. cbn [map]. rewrite (pieces_of_serialized py_eq _ _ _ Hts).
  rewrite emit_app.
  destruct (piece py_eq final bad) as [p|e] eqn:Hp.
  - apply piece_ok in Hp as (t & Ht & _). now destruct (Hbad t).
  - cbn [emit]. pose proof (piece_raises py_eq _ _ _ Hp) as Hne.
    destruct e; try (now destruct (Hne code)); cbn [stdout termination];
      (split; [reflexivity | eauto]).
Qed.

Lemma failure_keeps_partial_output_witness :
  let r := run (loader script_bad_middle) object_eq argv_ok in
  stdout r = "[" ++ text_x ++ "," ++ NL /\ exists e, termination r = Uncaught e.
Proof.
  pose proof (failure_keeps_partial_output (loader script_bad_middle) object_eq
                argv_ok script_bad_middle [enable_x] [enable_y] plain_int
                enable_y [text_x] eq_refl eq_refl eq_refl eq_refl) as H.
  cbn zeta in H. cbn [zip_with concat_str] in H.
  change (ending object_eq enable_y enable_x) with ("," ++ NL) in H.
  rewrite !app_nil_r_s in H. apply H.
  - repeat constructor. exists fields_x. split; reflexivity.
  - intros t (d & Hd & _). discriminate Hd.
Defined.

(** X4: whatever the arguments, the loader and the records, every
    character on standard output is printable ASCII or a newline: the
    records are written with [ensure_ascii], and the program adds only
    brackets, commas and newlines. *)
Theorem output_is_ascii exec_module py_eq (argv : list string) :
  all_chars writable (stdout (run exec_module py_eq argv)) = true.
Proof.
  destruct (Nat.eq_dec (length argv) 2) as [Hargv|Hargv].
  2:{ unfold run, main.
      destruct (Nat.eqb_spec (length argv) 2); [contradiction | reflexivity]. }
  destruct (exec_module (nth 1 argv "")) as [module|e] eqn:Hload.
  2:{ now rewrite (run_not_loaded exec_module py_eq _ _ Hargv Hload). }
  destruct (module !! "BUILD_OPTIONS") as [[opts|ty]|] eqn:Hm.
  - rewrite (run_emit _ _ _ _ _ Hargv Hload Hm).
    destruct (emit_written (outcomes py_eq opts) "[") as (done & Hin & E).
    assert (all_chars writable ("[" ++ concat_str done) = true) as Hw.
    { rewrite all_chars_app, writable_concat; [reflexivity|].
      eapply Forall_impl; [exact Hin|]. intros p Hp. cbv beta in Hp.
      unfold outcomes in Hp. destruct (last opts) as [final|]; [|destruct Hp].
      apply in_map_iff in Hp as (o & Ho & _).
      exact (writable_piece py_eq _ _ _ Ho). }
    destruct (emit (outcomes py_eq opts) "[") as [out [[]|e]]; cbn [fst] in E;
      subst out.
    + cbn [stdout]. now rewrite all_chars_app, Hw.
    + destruct e; exact Hw.
  - unfold run. rewrite (main_loaded _ _ _ _ Hargv Hload).
    unfold getattr. now rewrite Hm.
  - unfold run. rewrite (main_loaded _ _ _ _ Hargv Hload).
    unfold getattr. now rewrite Hm.
Qed.

Lemma outcomes_congruence py_eq1 py_eq2 (l1 l2 : list PyObject) :
  Forall2 (fun a b => obj_dict a = obj_dict b) l1 l2 ->
  (forall f1 f2, last l1 = Some f1 -> last l2 = Some f2 ->
     Forall2 (fun a b => py_eq1 a f1 = py_eq2 b f2) l1 l2) ->
  outcomes py_eq1 l1 = outcomes py_eq2 l2.
Proof.
  intros Hd He. unfold outcomes.
  destruct (last l1) as [f1|] eqn:H1, (last l2) as [f2|] eqn:H2.
  - specialize (He f1 f2 eq_refl eq_refl). clear H1 H2.
    revert He. induction Hd as [|a b l1 l2 Hab _ IH]; intros He;
      [reflexivity|].
    inversion He as [|? ? ? ? Hq Hrest]; subst. cbn [map]. rewrite (IH Hrest).
    unfold piece, ending, get_dict. now rewrite Hab, Hq.
  - apply last_None in H2 as ->. inversion Hd; subst. discriminate H1.
  - apply last_None in H1 as ->. inversion Hd; subst. discriminate H2.
  - reflexivity.
Qed.

(** X5: the run does not depend on which objects the records are, only on
    their fields and on what [==] answers against the last record: two
    runs, with any arguments, loaders and other module attributes, whose
    records have the same [__dict__] position by position and compare to
    their last record in the same way, write the same text and terminate
    the same way. *)
Theorem output_depends_on_fields_and_eq load1 load2 py_eq1 py_eq2
    (argv1 argv2 : list string) (m1 m2 : PyModule) (l1 l2 : list PyObject) :
  length argv1 = 2 -> length argv2 = 2 ->
  load1 (nth 1 argv1 "") = Ok m1 ->
  load2 (nth 1 argv2 "") = Ok m2 ->
  m1 !! "BUILD_OPTIONS" = Some (Sequence l1) ->
  m2 !! "BUILD_OPTIONS" = Some (Sequence l2) ->
  Forall2 (fun a b => obj_dict a = obj_dict b) l1 l2 ->
  (forall f1 f2, last l1 = Some f1 -> last l2 = Some f2 ->
     Forall2 (fun a b => py_eq1 a f1 = py_eq2 b f2) l1 l2) ->
  run load1 py_eq1 argv1 = run load2 py_eq2 argv2.
Proof.
  intros H1 H2 L1 L2 M1 M2 Hd He.
  rewrite (run_emit _ _ _ _ _ H1 L1 M1), (run_emit _ _ _ _ _ H2 L2 M2).
  now rewrite (outcomes_congruence py_eq1 py_eq2 l1 l2 Hd He).
Qed.

Lemma output_depends_on_fields_and_eq_witness :
  run (loader script_two) object_eq ["featureLoader.py"; "a.py"]
  = run (loader script_two') object_eq ["./featureLoader.py"; "b.py"].
Proof.
  apply (output_depends_on_fields_and_eq _ _ object_eq object_eq _ _
           script_two script_two' [enable_x; enable_y] [enable_x'; enable_y']);
    try reflexivity.
  - repeat constructor.
  - intros f1 f2 [= <-] [= <-]. repeat constructor.
Defined.

(** X6: for a sequence of serializable records whose last record equals
    itself, the output is the records' texts joined by a comma and a
    newline, between the brackets, if and only if no record before the
    last one compares equal to the last one. *)
Theorem separators_exact_iff exec_module py_eq (argv : list string)
    (module : PyModule) (init : list PyObject) (final : PyObject)
    (ts : list string) :
  length argv = 2 ->
  exec_module (nth 1 argv "") = Ok module ->
  module !! "BUILD_OPTIONS" = Some (Sequence (init ++ [final])%list) ->
  py_eq final final = true ->
  Forall2 serializes (init ++ [final])%list ts ->
  stdout (run exec_module py_eq argv)
    = "[" ++ join (String "," NL) ts ++ "]" ++ NL
  <-> Forall (fun o => py_eq o final = false) init.
Proof. apply separated_iff. Qed.

Lemma separators_exact_iff_witness :
  (stdout (run (loader script_aliased) object_eq argv_ok)
     = "[" ++ join (String "," NL) [text_x; text_y; text_x] ++ "]" ++ NL
   <-> Forall (fun o => object_eq o enable_x = false) [enable_x; enable_y]) /\
  (stdout (run (loader script_two) object_eq argv_ok)
     = "[" ++ join (String "," NL) [text_x; text_y] ++ "]" ++ NL
   <-> Forall (fun o => object_eq o enable_y = false) [enable_x]).
Proof.
  split.
  - apply (separators_exact_iff (loader script_aliased) object_eq argv_ok
             script_aliased [enable_x; enable_y] enable_x); try reflexivity.
    repeat constructor; eexists; split; reflexivity.
  - apply (separators_exact_iff (loader script_two) object_eq argv_ok
             script_two [enable_x] enable_y); try reflexivity.
    repeat constructor; eexists; split; reflexivity.
Defined.

(** X7: when no record before the last one compares equal to the last
    one, the last one equals itself and no field value holds a NaN or an
    infinity, the whole output is a JSON text: it reads as the array of
    the records' objects, as many as there are records and in their
    order, and the exit status is 0. *)
Theorem output_reads_as_array exec_module py_eq (argv : list string)
    (module : PyModule) (init : list PyObject) (final : PyObject)
    (ts : list string) :
  length argv = 2 ->
  exec_module (nth 1 argv "") = Ok module ->
  module !! "BUILD_OPTIONS" = Some (Sequence (init ++ [final])%list) ->
  Forall (fun o => py_eq o final = false) init ->
  py_eq final final = true ->
  Forall2 serializes (init ++ [final])%list ts ->
  Forall (fun o => finite_record o = true) (init ++ [final])%list ->
  let r := run exec_module py_eq argv in
  termination r = Exited 0 /\
  exists js,
    Rfc8259.loads (stdout r) = Some (Rfc8259.JArray js) /\
    Forall2 (fun o j => record_json o = Some j) (init ++ [final])%list js.
Proof.
  intros Hargv Hload Hm Hinit Hfinal Hts Hfin r. split.
  - unfold r.
    now rewrite (separated_run _ _ _ _ _ _ _ Hargv Hload Hm Hinit Hfinal Hts).
  - exact (separated_run_loads _ _ _ _ _ _ _ Hargv Hload Hm Hinit Hfinal Hts
             Hfin).
Qed.

Lemma output_reads_as_array_witness :
  let r := run (loader script_rate) object_eq argv_ok in
  termination r = Exited 0 /\
  exists js,
    Rfc8259.loads (stdout r) = Some (Rfc8259.JArray js) /\
    Forall2 (fun o j => record_json o = Some j) [enable_x; option_rate] js.
Proof.
  apply (output_reads_as_array (loader script_rate) object_eq argv_ok
           script_rate [enable_x] option_rate [text_x; text_rate]);
    try reflexivity.
  - repeat constructor.
  - repeat constructor; eexists; split; reflexivity.
  - repeat constructor.
Defined.

Lemma last_visible_piece py_eq final o p :
  piece py_eq final o = Ok p ->
  last_visible p = Some "}"%char \/ last_visible p = Some ","%char.
Proof.
  intros (t & (d & _ & Ht) & ->)%piece_ok. unfold json_dumps in Ht.
  rewrite encode_dict in Ht.
  destruct (mapM encode_member _) as [chunks|e]; [|discriminate].
  injection Ht as <-. unfold ending.
  destruct (py_eq o final).
  - left. rewrite app_nil_r_s.
    change (last_visible (String "{" (join ", " chunks ++ "}"))
            = Some "}"%char).
    cbn [last_visible]. rewrite last_visible_app. reflexivity.
  - right. rewrite last_visible_app. reflexivity.
Qed.

Lemma last_visible_open done :
  Forall (fun p => last_visible p = Some "}"%char \/
                   last_visible p = Some ","%char) done ->
  last_visible ("[" ++ concat_str done) <> Some "]"%char.
Proof.
  intros H.
  assert (last_visible (concat_str done) = None \/
          last_visible (concat_str done) = Some "}"%char \/
          last_visible (concat_str done) = Some ","%char) as Hc.
  { induction H as [|p done Hp _ IH]; [now left|].
    cbn [concat_str]. rewrite last_visible_app.
    destruct IH as [E|[E|E]]; rewrite E; auto. }
  rewrite last_visible_app.
  destruct Hc as [E|[E|E]]; rewrite E; discriminate.
Qed.

Lemma open_not_json x :
  last_visible (String "[" x) <> Some "]"%char ->
  Rfc8259.loads (String "[" x) = None.
Proof.
  intros H. destruct (Rfc8259.loads (String "[" x)) as [v|] eqn:E;
    [|reflexivity].
  now apply (loads_array_closes _ _ x) in E.
Qed.

(** X8: once the script is loaded, the last visible character of standard
    output is the closing bracket exactly when the run exits with status
    0; a run that fails never leaves a JSON text behind: an RFC 8259
    reader rejects whatever it has written. *)
Theorem failed_run_not_json exec_module py_eq argv module :
  length argv = 2 ->
  exec_module (nth 1 argv "") = Ok module ->
  (termination (run exec_module py_eq argv) = Exited 0 <->
   last_visible (stdout (run exec_module py_eq argv)) = Some "]"%char) /\
  (termination (run exec_module py_eq argv) <> Exited 0 ->
   Rfc8259.loads (stdout (run exec_module py_eq argv)) = None).
Proof.
  intros Hargv Hload.
  destruct (module !! "BUILD_OPTIONS") as [[opts|ty]|] eqn:Hm.
  - rewrite (run_emit exec_module py_eq _ _ _ Hargv Hload Hm).
    destruct (emit_written (outcomes py_eq opts) "[") as (done & Hin & E).
    assert (last_visible ("[" ++ concat_str done) <> Some "]"%char) as Hopen.
    { apply last_visible_open. eapply Forall_impl; [exact Hin|].
      intros p Hp. cbv beta in Hp. unfold outcomes in Hp.
      destruct (last opts) as [final|]; [|destruct Hp].
      apply in_map_iff in Hp as (o & Ho & _).
      exact (last_visible_piece _ _ _ _ Ho). }
    destruct (emit (outcomes py_eq opts) "[") as [out [[]|e]] eqn:Em;
      cbn [fst] in E; subst out.
    + cbn [stdout termination]. split; [|congruence].
      split; [|reflexivity]. intros _.
      rewrite last_visible_app. reflexivity.
    + pose proof (outcomes_raise py_eq _ _ (emit_raise_found _ _ _ _ Em)) as He.
      assert (forall out,
                match e with
                | SystemExit c => {| stdout := out; termination := Exited c |}
                | _ => {| stdout := out; termination := Uncaught e |}
                end = {| stdout := out; termination := Uncaught e |}) as ->.
      { intros out. destruct e; try reflexivity. now destruct (He code). }
      cbn [stdout termination]. split.
      * split; [discriminate | intros H; now destruct Hopen].
      * intros _. now apply open_not_json.
  - unfold run. rewrite (main_loaded _ _ _ _ Hargv Hload).
    unfold getattr. rewrite Hm. cbn. split; [|reflexivity].
    split; discriminate.
  - unfold run. rewrite (main_loaded _ _ _ _ Hargv Hload).
    unfold getattr. rewrite Hm. cbn. split; [|reflexivity].
    split; discriminate.
Qed.

Lemma failed_run_not_json_witness :
  let r := run (loader script_bad_middle) object_eq argv_ok in
  (termination r = Exited 0 <-> last_visible (stdout r) = Some "]"%char) /\
  (termination r <> Exited 0 -> Rfc8259.loads (stdout r) = None).
Proof.
  apply (failed_run_not_json (loader script_bad_middle) object_eq argv_ok
           script_bad_middle); reflexivity.
Defined.

(** X9: numbers are written exactly.  The text that [json.dumps] writes
    for an [int] or a finite [float] is a JSON text; it reads as the JSON
    value of the number, and the digits and the exponent of that JSON
    number denote the value of the Python number. *)
Theorem numbers_written_exactly (v : PyValue) (w : Dec) (t : string) :
  py_number_value v = Some w ->
  Json.encode v = Ok t ->
  exists j u,
    Rfc8259.loads t = Some j /\ json_of v = Some j /\
    number_value j = Some u /\ same_decimal u w.
Proof.
  intros Hw Ht.
  assert (finite_value v = true) as Hfin
    by (destruct v as [| | | [] | | | |]; try discriminate; reflexivity).
  destruct (encode_reads v t Ht Hfin) as (j & Hj & Hr).
  apply reads_as_loads in Hr.
  destruct v as [| b | z | x | s | items | items | ty]; try discriminate.
  - injection Hw as <-. injection Hj as <-.
    eexists _, _. split; [exact Hr|]. split; [reflexivity|].
    split; [reflexivity|]. split; reflexivity.
  - cbn [py_number_value json_of] in *.
    destruct (float_number_value x w Hw) as (j' & u & Hj' & Hu & Hs).
    rewrite Hj in Hj'. injection Hj' as <-.
    exists j, u. auto.
Qed.

Lemma numbers_written_exactly_witness :
  exists j u,
    Rfc8259.loads "1.5" = Some j /\
    json_of (PyFloat (FFinite false 15 1)) = Some j /\
    number_value j = Some u /\
    same_decimal u {| dec_minus := false; dec_coefficient := 15;
                      dec_exponent := -1 |}.
Proof.
  apply (numbers_written_exactly (PyFloat (FFinite false 15 1))
           {| dec_minus := false; dec_coefficient := 15; dec_exponent := -1 |}
           "1.5"); reflexivity.
Defined.

End Extras.
